(** * cephfs-mirror: PeerReplayer (src/tools/cephfs_mirror/PeerReplayer.h)

    A shallow embedding of the inline part of [PeerReplayer]: the
    cancellation flag of a [SnapshotReplayerThread], [SyncEntry], the
    per-directory [SnapSyncStat] table with its mutators, and
    [should_backoff].  The snapshot diff and the replay loop, which the
    header only declares, are modelled after the design document. *)

From Stdlib Require Import ZArith NArith String List Lia Bool.
From Stdlib Require Floats.PrimFloat.
From stdpp Require Import base option list gmap sets strings sorting.

Local Open Scope Z_scope.

(** ** Machine integers *)

(** [uint64_t]: a natural number below [2^64]; arithmetic wraps around. *)
Definition uint64_modulus : N := (2 ^ 64)%N.
Definition wrap64 (n : N) : N := (n mod uint64_modulus)%N.
Definition UINT64_MAX : N := (uint64_modulus - 1)%N.

(** [++x] on a [uint64_t]. *)
Definition incr64 (n : N) : N := wrap64 (n + 1).

(** [ceph::coarse_mono_time]: ticks of the coarse monotonic clock. *)
Definition time : Type := N.
Definition clock_zero : time := 0%N.

(** [double], kept as the machine float it is; the code only stores it. *)
Definition double : Type := PrimFloat.float.

(** ** Exceptions *)

(** [std::map::at] throws [std::out_of_range] on a missing key; this is
    the only exception the inline code can raise. *)
Inductive Exn : Type :=
| out_of_range (key : string).

Definition Result (A : Type) : Type := (Exn + A)%type.

Definition ok {A} (a : A) : Result A := inr a.
Definition throw {A} (e : Exn) : Result A := inl e.

Definition rbind {A B} (m : Result A) (f : A -> Result B) : Result B :=
  match m with
  | inl e => inl e
  | inr a => f a
  end.

Declare Scope result_scope.
Delimit Scope result_scope with result.
Notation "'let*' x := m 'in' k" := (rbind m (fun x => k))
  (at level 10, x name, m at level 100, k at level 200) : result_scope.

(** [m.at(key)] for a [std::map<std::string, V>]. *)
Definition map_at {V} (m : gmap string V) (key : string) : Result V :=
  match m !! key with
  | Some v => ok v
  | None => throw (out_of_range key)
  end.

(** ** SnapshotReplayerThread *)

Module SnapshotReplayerThread.

Record t : Type := mk { canceled : bool }.

(** Member initialiser [bool canceled = false]. *)
Definition init : t := {| canceled := false |}.

Definition cancel (th : t) : t := {| canceled := true |}.

Definition is_canceled (th : t) : bool := canceled th.

End SnapshotReplayerThread.

(** A [SnapshotReplayerThread *]: the address of a thread object.  The
    objects live in a store indexed by address; dereferencing is a plain
    read, as in the source (it cannot throw). *)
Definition thread_ptr : Type := N.

Record DirRegistry : Type := mkDirRegistry {
  fd : Z;
  replayer : thread_ptr
}.

(** ** SyncEntry *)

(** Modelled from the spec: [struct ceph_statx] and the [S_ISDIR] macro
    come from headers outside src/.  The spec calls the field "metadata
    (type, size, mode, timestamps, ownership)" whose "type bits" decide
    [is_directory()]; the type bits are the POSIX file-type mask [S_IFMT]
    (octal 0170000) of the 16-bit [stx_mode], and a directory is
    [S_IFDIR] (octal 0040000). *)
Record ceph_statx : Type := mk_statx {
  stx_mode : N;
  stx_uid : N;
  stx_gid : N;
  stx_size : N;
  stx_mtime : N;
  stx_ctime : N
}.

Definition S_IFMT : N := 61440%N.
Definition S_IFDIR : N := 16384%N.
Definition S_ISDIR (mode : N) : bool := (N.land mode S_IFMT =? S_IFDIR)%N.

(** [ceph_dir_result *]: an opaque traversal handle (null when absent). *)
Definition dir_handle : Type := option N.

Record SyncEntry : Type := mkSyncEntry {
  epath : string;
  dirp : dir_handle;
  stx : ceph_statx
}.

(** The two constructors: without and with a traversal handle.  The first
    leaves [dirp] unset. *)
Definition SyncEntry_file (path : string) (s : ceph_statx) : SyncEntry :=
  {| epath := path; dirp := None; stx := s |}.
Definition SyncEntry_dir (path : string) (d : dir_handle) (s : ceph_statx)
  : SyncEntry :=
  {| epath := path; dirp := d; stx := s |}.

Definition is_directory (e : SyncEntry) : bool := S_ISDIR (stx_mode (stx e)).

(** ** SnapSyncStat *)

Record SnapSyncStat : Type := mkSnapSyncStat {
  nr_failures : N;
  last_failed : option time;
  failed : bool;
  last_synced_snap : option (N * string);
  current_syncing_snap : option (N * string);
  synced_snap_count : N;
  deleted_snap_count : N;
  renamed_snap_count : N;
  last_synced : time;
  last_sync_duration : option double
}.

(** The default member initialisers. *)
Definition SnapSyncStat_init : SnapSyncStat :=
  {| nr_failures := 0; last_failed := None; failed := false;
     last_synced_snap := None; current_syncing_snap := None;
     synced_snap_count := 0; deleted_snap_count := 0;
     renamed_snap_count := 0; last_synced := clock_zero;
     last_sync_duration := None |}.

(** ** PeerReplayer state *)

(** Modelled from the spec: [FSMirror] is only forward-declared in the
    header; the spec consumes blocklist detection "as a boolean oracle",
    [is_fenced() -> bool]. *)
Record FSMirror : Type := mkFSMirror { is_blocklisted : bool }.

Record PeerReplayer : Type := mkPeerReplayer {
  m_fs_mirror : FSMirror;
  m_registered : gmap string DirRegistry;
  m_directories : list string;
  m_snap_sync_stats : gmap string SnapSyncStat;
  m_stopping : bool;
  (* the thread objects that [DirRegistry::replayer] points to *)
  threads : thread_ptr -> SnapshotReplayerThread.t
}.

Definition is_stopping (pr : PeerReplayer) : bool := m_stopping pr.

Definition with_stats (pr : PeerReplayer) (s : gmap string SnapSyncStat)
  : PeerReplayer :=
  {| m_fs_mirror := m_fs_mirror pr;
     m_registered := m_registered pr;
     m_directories := m_directories pr;
     m_snap_sync_stats := s;
     m_stopping := m_stopping pr;
     threads := threads pr |}.

(** [auto &sync_stat = m_snap_sync_stats.at(dir_path); <update sync_stat>]:
    the reference is into the map, so the update is an in-place write of
    that one entry. *)
Definition update_sync_stat (pr : PeerReplayer) (dir_path : string)
    (f : SnapSyncStat -> SnapSyncStat) : Result PeerReplayer :=
  (let* sync_stat := map_at (m_snap_sync_stats pr) dir_path in
   ok (with_stats pr (<[dir_path := f sync_stat]> (m_snap_sync_stats pr))))%result.

(** *** Field writes on one [SnapSyncStat] *)

Definition set_nr_failures (v : N) (s : SnapSyncStat) : SnapSyncStat :=
  {| nr_failures := v; last_failed := last_failed s; failed := failed s;
     last_synced_snap := last_synced_snap s;
     current_syncing_snap := current_syncing_snap s;
     synced_snap_count := synced_snap_count s;
     deleted_snap_count := deleted_snap_count s;
     renamed_snap_count := renamed_snap_count s;
     last_synced := last_synced s;
     last_sync_duration := last_sync_duration s |}.

Definition set_last_failed (v : option time) (s : SnapSyncStat) : SnapSyncStat :=
  {| nr_failures := nr_failures s; last_failed := v; failed := failed s;
     last_synced_snap := last_synced_snap s;
     current_syncing_snap := current_syncing_snap s;
     synced_snap_count := synced_snap_count s;
     deleted_snap_count := deleted_snap_count s;
     renamed_snap_count := renamed_snap_count s;
     last_synced := last_synced s;
     last_sync_duration := last_sync_duration s |}.

Definition set_failed (v : bool) (s : SnapSyncStat) : SnapSyncStat :=
  {| nr_failures := nr_failures s; last_failed := last_failed s; failed := v;
     last_synced_snap := last_synced_snap s;
     current_syncing_snap := current_syncing_snap s;
     synced_snap_count := synced_snap_count s;
     deleted_snap_count := deleted_snap_count s;
     renamed_snap_count := renamed_snap_count s;
     last_synced := last_synced s;
     last_sync_duration := last_sync_duration s |}.

Definition set_last_synced_snap_field (v : option (N * string))
    (s : SnapSyncStat) : SnapSyncStat :=
  {| nr_failures := nr_failures s; last_failed := last_failed s;
     failed := failed s;
     last_synced_snap := v;
     current_syncing_snap := current_syncing_snap s;
     synced_snap_count := synced_snap_count s;
     deleted_snap_count := deleted_snap_count s;
     renamed_snap_count := renamed_snap_count s;
     last_synced := last_synced s;
     last_sync_duration := last_sync_duration s |}.

Definition set_current_syncing_snap_field (v : option (N * string))
    (s : SnapSyncStat) : SnapSyncStat :=
  {| nr_failures := nr_failures s; last_failed := last_failed s;
     failed := failed s;
     last_synced_snap := last_synced_snap s;
     current_syncing_snap := v;
     synced_snap_count := synced_snap_count s;
     deleted_snap_count := deleted_snap_count s;
     renamed_snap_count := renamed_snap_count s;
     last_synced := last_synced s;
     last_sync_duration := last_sync_duration s |}.

Definition set_synced_snap_count (v : N) (s : SnapSyncStat) : SnapSyncStat :=
  {| nr_failures := nr_failures s; last_failed := last_failed s;
     failed := failed s;
     last_synced_snap := last_synced_snap s;
     current_syncing_snap := current_syncing_snap s;
     synced_snap_count := v;
     deleted_snap_count := deleted_snap_count s;
     renamed_snap_count := renamed_snap_count s;
     last_synced := last_synced s;
     last_sync_duration := last_sync_duration s |}.

Definition set_deleted_snap_count (v : N) (s : SnapSyncStat) : SnapSyncStat :=
  {| nr_failures := nr_failures s; last_failed := last_failed s;
     failed := failed s;
     last_synced_snap := last_synced_snap s;
     current_syncing_snap := current_syncing_snap s;
     synced_snap_count := synced_snap_count s;
     deleted_snap_count := v;
     renamed_snap_count := renamed_snap_count s;
     last_synced := last_synced s;
     last_sync_duration := last_sync_duration s |}.

Definition set_renamed_snap_count (v : N) (s : SnapSyncStat) : SnapSyncStat :=
  {| nr_failures := nr_failures s; last_failed := last_failed s;
     failed := failed s;
     last_synced_snap := last_synced_snap s;
     current_syncing_snap := current_syncing_snap s;
     synced_snap_count := synced_snap_count s;
     deleted_snap_count := deleted_snap_count s;
     renamed_snap_count := v;
     last_synced := last_synced s;
     last_sync_duration := last_sync_duration s |}.

Definition set_last_synced (v : time) (s : SnapSyncStat) : SnapSyncStat :=
  {| nr_failures := nr_failures s; last_failed := last_failed s;
     failed := failed s;
     last_synced_snap := last_synced_snap s;
     current_syncing_snap := current_syncing_snap s;
     synced_snap_count := synced_snap_count s;
     deleted_snap_count := deleted_snap_count s;
     renamed_snap_count := renamed_snap_count s;
     last_synced := v;
     last_sync_duration := last_sync_duration s |}.

Definition set_last_sync_duration (v : option double) (s : SnapSyncStat)
  : SnapSyncStat :=
  {| nr_failures := nr_failures s; last_failed := last_failed s;
     failed := failed s;
     last_synced_snap := last_synced_snap s;
     current_syncing_snap := current_syncing_snap s;
     synced_snap_count := synced_snap_count s;
     deleted_snap_count := deleted_snap_count s;
     renamed_snap_count := renamed_snap_count s;
     last_synced := last_synced s;
     last_sync_duration := v |}.

(** *** The mutators

    [max_failures] is the configuration value
    [cephfs_mirror_max_consecutive_failures_per_directory]; [now] is what
    [clock::now()] returns at the call.  The [std::scoped_lock] some of
    them take has no effect on the data and is left out here. *)

(** Body of [_inc_failed_count] after the lookup:
    [last_failed = now; if (++nr_failures >= max_failures) failed = true;] *)
Definition inc_failed_stat (max_failures : N) (now : time)
    (sync_stat : SnapSyncStat) : SnapSyncStat :=
  let s1 := set_last_failed (Some now) sync_stat in
  let s2 := set_nr_failures (incr64 (nr_failures s1)) s1 in
  if (max_failures <=? nr_failures s2)%N then set_failed true s2 else s2.

Definition _inc_failed_count (max_failures : N) (now : time)
    (pr : PeerReplayer) (dir_path : string) : Result PeerReplayer :=
  update_sync_stat pr dir_path (inc_failed_stat max_failures now).

Definition reset_failed_stat (sync_stat : SnapSyncStat) : SnapSyncStat :=
  set_last_failed None (set_failed false (set_nr_failures 0%N sync_stat)).

Definition _reset_failed_count (pr : PeerReplayer) (dir_path : string)
  : Result PeerReplayer :=
  update_sync_stat pr dir_path reset_failed_stat.

Definition last_synced_snap_stat (snap_id : N) (snap_name : string)
    (sync_stat : SnapSyncStat) : SnapSyncStat :=
  set_current_syncing_snap_field None
    (set_last_synced_snap_field (Some (snap_id, snap_name)) sync_stat).

Definition _set_last_synced_snap (pr : PeerReplayer) (dir_path : string)
    (snap_id : N) (snap_name : string) : Result PeerReplayer :=
  update_sync_stat pr dir_path (last_synced_snap_stat snap_id snap_name).

Definition set_last_synced_snap (pr : PeerReplayer) (dir_path : string)
    (snap_id : N) (snap_name : string) : Result PeerReplayer :=
  _set_last_synced_snap pr dir_path snap_id snap_name.

Definition set_current_syncing_snap (pr : PeerReplayer) (dir_path : string)
    (snap_id : N) (snap_name : string) : Result PeerReplayer :=
  update_sync_stat pr dir_path
    (set_current_syncing_snap_field (Some (snap_id, snap_name))).

Definition clear_current_syncing_snap (pr : PeerReplayer) (dir_path : string)
  : Result PeerReplayer :=
  update_sync_stat pr dir_path (set_current_syncing_snap_field None).

Definition inc_deleted_snap (pr : PeerReplayer) (dir_path : string)
  : Result PeerReplayer :=
  update_sync_stat pr dir_path
    (fun s => set_deleted_snap_count (incr64 (deleted_snap_count s)) s).

Definition inc_renamed_snap (pr : PeerReplayer) (dir_path : string)
  : Result PeerReplayer :=
  update_sync_stat pr dir_path
    (fun s => set_renamed_snap_count (incr64 (renamed_snap_count s)) s).

(** Body of [set_last_synced_stat] after its second lookup. *)
Definition synced_stat (now : time) (duration : double)
    (sync_stat : SnapSyncStat) : SnapSyncStat :=
  let s1 := set_last_synced now sync_stat in
  let s2 := set_last_sync_duration (Some duration) s1 in
  set_synced_snap_count (incr64 (synced_snap_count s2)) s2.

Definition set_last_synced_stat (now : time) (pr : PeerReplayer)
    (dir_path : string) (snap_id : N) (snap_name : string)
    (duration : double) : Result PeerReplayer :=
  (let* pr1 := _set_last_synced_snap pr dir_path snap_id snap_name in
   update_sync_stat pr1 dir_path (synced_stat now duration))%result.

(** [cancel()] called on the thread object at address [th]. *)
Definition cancel_thread (pr : PeerReplayer) (th : thread_ptr) : PeerReplayer :=
  {| m_fs_mirror := m_fs_mirror pr;
     m_registered := m_registered pr;
     m_directories := m_directories pr;
     m_snap_sync_stats := m_snap_sync_stats pr;
     m_stopping := m_stopping pr;
     threads := fun a =>
       if (a =? th)%N then SnapshotReplayerThread.cancel (threads pr a)
       else threads pr a |}.

(** ** should_backoff *)

(** Modelled from the spec: the errno macros are defined outside src/.
    The spec wants fencing "surfaced as a distinct error code
    distinguishable from shutdown"; the comment in [should_backoff] fixes
    [EBLOCKLISTED] to [ESHUTDOWN] (108), and [EINPROGRESS] and [ECANCELED]
    take their Linux values. *)
Definition EBLOCKLISTED : Z := 108.
Definition EINPROGRESS : Z := 115.
Definition ECANCELED : Z := 125.

(** What [should_backoff] touches, in program order. *)
Inductive Event : Type :=
| ev_is_blocklisted
| ev_lock
| ev_unlock
| ev_is_stopping
| ev_registered_at (dir_path : string)
| ev_is_canceled (th : thread_ptr).

(** A computation that may throw and records the events it performed. *)
Definition Traced (A : Type) : Type := (Result A * list Event)%type.

Definition tret {A} (a : A) : Traced A := (ok a, []).

Definition tbind {A B} (m : Traced A) (f : A -> Traced B) : Traced B :=
  match m with
  | (inl e, tr) => (inl e, tr)
  | (inr a, tr) => let '(r, tr') := f a in (r, tr ++ tr')
  end.

Definition perform {A} (ev : Event) (r : Result A) : Traced A := (r, [ev]).

(** [std::scoped_lock locker(m_lock); body]: the lock is released when the
    scope is left, by return or by exception. *)
Definition scoped_lock {A} (body : Traced A) : Traced A :=
  let '(r, tr) := body in (r, ev_lock :: tr ++ [ev_unlock]).

Declare Scope traced_scope.
Delimit Scope traced_scope with traced.
Notation "'let*' x := m 'in' k" := (tbind m (fun x => k))
  (at level 10, x name, m at level 100, k at level 200) : traced_scope.

Definition outcome {A} (m : Traced A) : Result A := fst m.
Definition trace {A} (m : Traced A) : list Event := snd m.

(** The result is the returned [bool] paired with what was stored in
    [*retval]. *)
Definition should_backoff (pr : PeerReplayer) (dir_path : string)
  : Traced (bool * Z) :=
  (let* blocklisted :=
     perform ev_is_blocklisted (ok (is_blocklisted (m_fs_mirror pr))) in
   if (blocklisted : bool) then tret (true, - EBLOCKLISTED)
   else
     scoped_lock
       (let* stopping := perform ev_is_stopping (ok (is_stopping pr)) in
        if (stopping : bool) then tret (true, - EINPROGRESS)
        else
          let* dr := perform (ev_registered_at dir_path)
                       (map_at (m_registered pr) dir_path) in
          let* canceled :=
            perform (ev_is_canceled (replayer dr))
              (ok (SnapshotReplayerThread.is_canceled
                     (threads pr (replayer dr)))) in
          if (canceled : bool) then tret (true, - ECANCELED)
          else tret (false, 0)))%traced.

(** The event sequences of the four ways through [should_backoff]. *)
Definition trace_blocklisted : list Event := [ev_is_blocklisted].
Definition trace_stopping : list Event :=
  [ev_is_blocklisted; ev_lock; ev_is_stopping; ev_unlock].
Definition trace_lookup_failed (dir_path : string) : list Event :=
  [ev_is_blocklisted; ev_lock; ev_is_stopping; ev_registered_at dir_path;
   ev_unlock].
Definition trace_polled (dir_path : string) (th : thread_ptr) : list Event :=
  [ev_is_blocklisted; ev_lock; ev_is_stopping; ev_registered_at dir_path;
   ev_is_canceled th; ev_unlock].

(** ** Snapshot diff and replay order *)

(** [do_sync_snaps], [build_snap_map], [propagate_snap_deletes],
    [propagate_snap_renames] and [synchronize] are only declared in the
    header; their bodies are not under src/.  This section follows the
    design instead: the diff algorithm of section 4.4 over two
    [std::map<uint64_t, std::string>] snapshot maps, and the per-pass
    replay loop of section 4.6, with [synchronize] as an oracle returning
    the C result code (negative on failure). *)

(** Modelled from the spec: the body of [build_snap_map] is missing; a
    SnapshotMap is an "ordered mapping from monotonically increasing
    snapshot identifier to snapshot name", so entries compare by
    identifier. *)
Definition snap_le (a b : N * string) : Prop := (a.1 <= b.1)%N.

#[global] Instance snap_le_dec : RelDecision snap_le.
Proof. intros a b. unfold snap_le. apply _. Defined.

(** Modelled from the spec: the body of [do_sync_snaps] is missing; it
    walks a snapshot map as an "ordered identifier→name map", that is in
    ascending identifier order. *)
Definition snap_map_entries (m : gmap N string) : list (N * string) :=
  merge_sort snap_le (map_to_list m).

(** Modelled from the spec: the body of [do_sync_snaps] is missing;
    step 1 of its diff is "remote snapshot names with no matching
    identifier in the local map → delete set". *)
Definition deleted_name (local : gmap N string) (entry : N * string)
  : option string :=
  match local !! entry.1 with
  | None => Some entry.2
  | Some _ => None
  end.

(** Modelled from the spec: the delete set that [do_sync_snaps] (body
    missing) passes to [propagate_snap_deletes], a [std::set] of names. *)
Definition snaps_deleted (local remote : gmap N string) : gset string :=
  list_to_set (omap (deleted_name local) (snap_map_entries remote)).

(** Modelled from the spec: the body of [do_sync_snaps] is missing;
    step 2 of its diff is "identifiers present in both maps but with
    different names → rename set of (old_name, new_name) pairs", the
    remote name and the local one. *)
Definition renamed_pair (local : gmap N string) (entry : N * string)
  : option (string * string) :=
  match local !! entry.1 with
  | Some new_name =>
      if decide (new_name = entry.2) then None else Some (entry.2, new_name)
  | None => None
  end.

(** Modelled from the spec: the rename set that [do_sync_snaps] (body
    missing) passes to [propagate_snap_renames], a [std::set] of pairs. *)
Definition snaps_renamed (local remote : gmap N string)
  : gset (string * string) :=
  list_to_set (omap (renamed_pair local) (snap_map_entries remote)).

(** Modelled from the spec: the body of [do_sync_snaps] is missing;
    step 3 of its diff is "local identifiers strictly greater than the
    last-synced identifier, processed in ascending identifier order". *)
Definition pending_snaps (last_snap_id : N) (local : gmap N string)
  : list (N * string) :=
  filter (fun entry => (last_snap_id < entry.1)%N) (snap_map_entries local).

(** Modelled from the spec: what one pass of [do_sync_snaps] (body
    missing) leaves behind. *)
Record PassResult : Type := mkPassResult {
  synchronized : list N;   (* identifiers passed to [synchronize], in call order *)
  last_synced_id : N;      (* last-synced identifier when the pass ends *)
  pass_code : Z            (* result code of the pass *)
}.

(** Modelled from the spec: the loop of [do_sync_snaps] (body missing)
    over the pending snapshots.  [synchronize] is called on each in
    turn; "on success record success and advance", which moves the
    last-synced identifier to that snapshot, and the pass ends at the
    first failure ("retried on the directory's next scheduling turn"). *)
Fixpoint replay_snaps (synchronize : N -> string -> Z) (last_snap_id : N)
    (snaps : list (N * string)) : PassResult :=
  match snaps with
  | [] => {| synchronized := []; last_synced_id := last_snap_id; pass_code := 0 |}
  | (snap_id, snap_name) :: rest =>
      let r := synchronize snap_id snap_name in
      if r <? 0 then
        {| synchronized := [snap_id]; last_synced_id := last_snap_id;
           pass_code := r |}
      else
        let res := replay_snaps synchronize snap_id rest in
        {| synchronized := snap_id :: synchronized res;
           last_synced_id := last_synced_id res;
           pass_code := pass_code res |}
  end.

(** Modelled from the spec: one pass of [do_sync_snaps] (body missing)
    over the new snapshots. *)
Definition sync_pass (synchronize : N -> string -> Z) (last_snap_id : N)
    (local : gmap N string) : PassResult :=
  replay_snaps synchronize last_snap_id (pending_snaps last_snap_id local).



(** ** Operations as data *)

(** The per-directory statistics mutators, reified so that a property can
    range over all of them. *)
Inductive StatOp : Type :=
| op_inc_failed_count (max_failures : N) (now : time)
| op_reset_failed_count
| op_set_last_synced_snap (snap_id : N) (snap_name : string)
| op_set_current_syncing_snap (snap_id : N) (snap_name : string)
| op_clear_current_syncing_snap
| op_inc_deleted_snap
| op_inc_renamed_snap
| op_set_last_synced_stat (now : time) (snap_id : N) (snap_name : string)
    (duration : double).

Definition run_stat_op (op : StatOp) (pr : PeerReplayer) (dir_path : string)
  : Result PeerReplayer :=
  match op with
  | op_inc_failed_count max_failures now =>
      _inc_failed_count max_failures now pr dir_path
  | op_reset_failed_count => _reset_failed_count pr dir_path
  | op_set_last_synced_snap snap_id snap_name =>
      set_last_synced_snap pr dir_path snap_id snap_name
  | op_set_current_syncing_snap snap_id snap_name =>
      set_current_syncing_snap pr dir_path snap_id snap_name
  | op_clear_current_syncing_snap => clear_current_syncing_snap pr dir_path
  | op_inc_deleted_snap => inc_deleted_snap pr dir_path
  | op_inc_renamed_snap => inc_renamed_snap pr dir_path
  | op_set_last_synced_stat now snap_id snap_name duration =>
      set_last_synced_stat now pr dir_path snap_id snap_name duration
  end.

(** Every mutator is one in-place update of the entry at [dir_path]. *)
Definition stat_op_update (op : StatOp) : SnapSyncStat -> SnapSyncStat :=
  match op with
  | op_inc_failed_count max_failures now => inc_failed_stat max_failures now
  | op_reset_failed_count => reset_failed_stat
  | op_set_last_synced_snap snap_id snap_name =>
      last_synced_snap_stat snap_id snap_name
  | op_set_current_syncing_snap snap_id snap_name =>
      set_current_syncing_snap_field (Some (snap_id, snap_name))
  | op_clear_current_syncing_snap => set_current_syncing_snap_field None
  | op_inc_deleted_snap =>
      fun s => set_deleted_snap_count (incr64 (deleted_snap_count s)) s
  | op_inc_renamed_snap =>
      fun s => set_renamed_snap_count (incr64 (renamed_snap_count s)) s
  | op_set_last_synced_stat now snap_id snap_name duration =>
      fun s => synced_stat now duration (last_synced_snap_stat snap_id snap_name s)
  end.

(** Modelled from the spec: the members declared without a body ([init],
    [shutdown], [add_directory], [remove_directory], [run],
    [register_directory], [unregister_directory], ...) are not under
    src/.  An [Action] is anything that can happen to a [PeerReplayer]
    between two polls of [should_backoff]: [cancel()] on a thread, one of
    the statistics mutators, or one of those members.  [canceled] is a
    private member of [SnapshotReplayerThread] whose only writer is
    [cancel()], so the members without a body are taken as [act_member]:
    they may rewrite every field of the replayer, and reach a thread's
    flag only through [act_cancel] ("[shutdown()] cancels every worker
    thread"). *)
Inductive Action : Type :=
| act_cancel (th : thread_ptr)
| act_stat (op : StatOp) (dir_path : string)
| act_member (fs : FSMirror) (registered : gmap string DirRegistry)
    (directories : list string) (stats : gmap string SnapSyncStat)
    (stopping : bool).

Definition step (pr : PeerReplayer) (a : Action) : Result PeerReplayer :=
  match a with
  | act_cancel th => ok (cancel_thread pr th)
  | act_stat op dir_path => run_stat_op op pr dir_path
  | act_member fs registered directories stats stopping =>
      ok {| m_fs_mirror := fs;
            m_registered := registered;
            m_directories := directories;
            m_snap_sync_stats := stats;
            m_stopping := stopping;
            threads := threads pr |}
  end.

(** A run of actions; it stops at the first exception. *)
Fixpoint run (pr : PeerReplayer) (actions : list Action) : Result PeerReplayer :=
  match actions with
  | [] => ok pr
  | a :: rest => (let* pr1 := step pr a in run pr1 rest)%result
  end.

(** ** Sample data *)

Definition sample_replayer : PeerReplayer :=
  {| m_fs_mirror := {| is_blocklisted := false |};
     m_registered := <["/data" := {| fd := 3; replayer := 1%N |}]> ∅;
     m_directories := ["/data"; "/home"];
     m_snap_sync_stats :=
       <["/home" := SnapSyncStat_init]> (<["/data" := SnapSyncStat_init]> ∅);
     m_stopping := false;
     threads := fun _ => SnapshotReplayerThread.init |}.

Definition set_blocklisted (b : bool) (pr : PeerReplayer) : PeerReplayer :=
  {| m_fs_mirror := {| is_blocklisted := b |};
     m_registered := m_registered pr;
     m_directories := m_directories pr;
     m_snap_sync_stats := m_snap_sync_stats pr;
     m_stopping := m_stopping pr;
     threads := threads pr |}.

Definition set_stopping (b : bool) (pr : PeerReplayer) : PeerReplayer :=
  {| m_fs_mirror := m_fs_mirror pr;
     m_registered := m_registered pr;
     m_directories := m_directories pr;
     m_snap_sync_stats := m_snap_sync_stats pr;
     m_stopping := b;
     threads := threads pr |}.

(** A replayer whose directory "/data" has hit a failure cap of 3. *)
Definition quarantined_stat : SnapSyncStat :=
  {| nr_failures := 3; last_failed := Some 40%N; failed := true;
     last_synced_snap := Some (1%N, "s1");
     current_syncing_snap := Some (2%N, "s2");
     synced_snap_count := 1; deleted_snap_count := 0;
     renamed_snap_count := 0; last_synced := 10%N;
     last_sync_duration := Some PrimFloat.one |}.

Definition quarantined_replayer : PeerReplayer :=
  with_stats sample_replayer
    (<["/data" := quarantined_stat]> (m_snap_sync_stats sample_replayer)).

(** The quarantined entry with its failure counter at the top of
    [uint64_t]. *)
Definition saturated_stat : SnapSyncStat :=
  set_nr_failures UINT64_MAX quarantined_stat.

Definition saturated_replayer : PeerReplayer :=
  with_stats sample_replayer
    (<["/data" := saturated_stat]> (m_snap_sync_stats sample_replayer)).

(** A directory entry [drwxr-xr-x], a regular file [-rw-r--r--] and a
    block device [brw-rw----]. *)
Definition statx_of_mode (mode : N) : ceph_statx :=
  {| stx_mode := mode; stx_uid := 0; stx_gid := 0; stx_size := 0;
     stx_mtime := 0; stx_ctime := 0 |}.
Definition mode_dir_0755 : N := 16877%N.
Definition mode_reg_0644 : N := 33188%N.
Definition mode_blk_0660 : N := 25008%N.

(** Local snapshots of "/data", and a [synchronize] that fails with
    [-EIO] on snapshot 4 only. *)
Definition sample_local_snaps : gmap N string :=
  <[3%N := "s3"]> (<[5%N := "s5"]> (<[1%N := "s1"]> (<[4%N := "s4"]>
    (<[2%N := "s2"]> ∅)))).

Definition synchronize_fails_at_4 (snap_id : N) (snap_name : string) : Z :=
  if (snap_id =? 4)%N then -5 else 0.

(** ** Sequences of mutators and what they are checked against *)

(** A sequence of statistics mutators, each with the directory it is
    called on, as a run of actions. *)
Definition stat_actions (ops : list (StatOp * string)) : list Action :=
  map (fun p => act_stat p.1 p.2) ops.

(** [_inc_failed_count] called on [dir_path] once per clock reading. *)
Definition failure_actions (max_failures : N) (dir_path : string)
    (nows : list time) : list Action :=
  map (fun now => act_stat (op_inc_failed_count max_failures now) dir_path) nows.

Definition is_set_last_synced_stat (op : StatOp) : bool :=
  match op with op_set_last_synced_stat _ _ _ _ => true | _ => false end.
Definition is_inc_deleted_snap (op : StatOp) : bool :=
  match op with op_inc_deleted_snap => true | _ => false end.
Definition is_inc_renamed_snap (op : StatOp) : bool :=
  match op with op_inc_renamed_snap => true | _ => false end.

(** The mutators that write the failure fields ([nr_failures], [failed],
    [last_failed]). *)
Definition touches_failure_state (op : StatOp) : bool :=
  match op with
  | op_inc_failed_count _ _ | op_reset_failed_count => true
  | _ => false
  end.

(** How many calls in [ops] are of the selected kind and on [dir_path]. *)
Fixpoint count_on (sel : StatOp -> bool) (dir_path : string)
    (ops : list (StatOp * string)) : N :=
  match ops with
  | [] => 0%N
  | (op, d) :: rest =>
      ((if sel op && bool_decide (d = dir_path) then 1 else 0)
       + count_on sel dir_path rest)%N
  end.

(** Every [_inc_failed_count] in [ops] reads the same configured cap. *)
Definition uses_cap (cap : N) (op : StatOp) : Prop :=
  match op with
  | op_inc_failed_count max_failures _ => max_failures = cap
  | _ => True
  end.

(** The counters of an entry hold [uint64_t] values. *)
Definition stat_in_range (st : SnapSyncStat) : Prop :=
  (nr_failures st < uint64_modulus)%N /\
  (synced_snap_count st < uint64_modulus)%N /\
  (deleted_snap_count st < uint64_modulus)%N /\
  (renamed_snap_count st < uint64_modulus)%N.

(** [failed] says that the counter has reached the cap. *)
Definition quarantine_consistent (cap : N) (st : SnapSyncStat) : Prop :=
  failed st = (cap <=? nr_failures st)%N.

(** An entry without a failure timestamp has no failure recorded. *)
Definition failure_stamp_consistent (st : SnapSyncStat) : Prop :=
  last_failed st = None -> nr_failures st = 0%N /\ failed st = false.

(** Replays the events of a call against [m_lock]: [Some held] is the
    state of the mutex afterwards, [None] means the call locked a mutex
    it held, unlocked one it did not hold, or read [m_stopping],
    [m_registered] or a thread's flag without holding it. *)
Fixpoint lock_discipline (held : bool) (tr : list Event) : option bool :=
  match tr with
  | [] => Some held
  | ev_is_blocklisted :: rest => lock_discipline held rest
  | ev_lock :: rest => if held then None else lock_discipline true rest
  | ev_unlock :: rest => if held then lock_discipline false rest else None
  | ev_is_stopping :: rest
  | ev_registered_at _ :: rest
  | ev_is_canceled _ :: rest =>
      if held then lock_discipline true rest else None
  end.

(** The mutators that store their arguments (or constants) and nothing
    that depends on the entry or the clock. *)
Definition overwrites (op : StatOp) : bool :=
  match op with
  | op_reset_failed_count
  | op_set_last_synced_snap _ _
  | op_set_current_syncing_snap _ _
  | op_clear_current_syncing_snap => true
  | _ => false
  end.

(** * Properties *)

(** ** Helper lemmas *)

Lemma incr64_no_overflow (n : N) :
  (n < UINT64_MAX)%N -> incr64 n = (n + 1)%N.
Proof.
  unfold incr64, wrap64, UINT64_MAX. intros H.
  apply N.mod_small. lia.
Qed.

Lemma incr64_overflow : incr64 UINT64_MAX = 0%N.
Proof. reflexivity. Qed.

Lemma map_at_Some {V} (m : gmap string V) key v :
  m !! key = Some v -> map_at m key = ok v.
Proof. unfold map_at. intros ->. reflexivity. Qed.

Lemma map_at_None {V} (m : gmap string V) key :
  m !! key = None -> map_at m key = throw (out_of_range key).
Proof. unfold map_at. intros ->. reflexivity. Qed.

Lemma map_at_ok_inv {V} (m : gmap string V) key v :
  map_at m key = ok v -> m !! key = Some v.
Proof.
  unfold map_at, ok, throw. destruct (m !! key); intros H; congruence.
Qed.

Lemma update_sync_stat_Some pr dir_path f st :
  m_snap_sync_stats pr !! dir_path = Some st ->
  update_sync_stat pr dir_path f =
    ok (with_stats pr (<[dir_path := f st]> (m_snap_sync_stats pr))).
Proof.
  intros H. unfold update_sync_stat. rewrite (map_at_Some _ _ _ H).
  reflexivity.
Qed.

Lemma update_sync_stat_None pr dir_path f :
  m_snap_sync_stats pr !! dir_path = None ->
  update_sync_stat pr dir_path f = throw (out_of_range dir_path).
Proof.
  intros H. unfold update_sync_stat. rewrite (map_at_None _ _ H).
  reflexivity.
Qed.

Lemma with_stats_lookup pr dir_path st :
  m_snap_sync_stats (with_stats pr (<[dir_path := st]> (m_snap_sync_stats pr)))
    !! dir_path = Some st.
Proof. simpl. apply lookup_insert_eq. Qed.

Lemma with_stats_lookup_ne pr dir_path other st :
  other <> dir_path ->
  m_snap_sync_stats (with_stats pr (<[dir_path := st]> (m_snap_sync_stats pr)))
    !! other = m_snap_sync_stats pr !! other.
Proof. intros H. simpl. apply lookup_insert_ne. congruence. Qed.

(** The two lookups of [set_last_synced_stat] collapse into one update:
    the second [at] cannot throw once the first has succeeded. *)
Lemma set_last_synced_stat_Some now pr dir_path snap_id snap_name duration st :
  m_snap_sync_stats pr !! dir_path = Some st ->
  set_last_synced_stat now pr dir_path snap_id snap_name duration =
    ok (with_stats pr
          (<[dir_path := synced_stat now duration
                           (last_synced_snap_stat snap_id snap_name st)]>
             (m_snap_sync_stats pr))).
Proof.
  intros H. unfold set_last_synced_stat, _set_last_synced_snap.
  rewrite (update_sync_stat_Some _ _ _ _ H). simpl.
  unfold update_sync_stat. simpl.
  rewrite (map_at_Some _ _ _ (lookup_insert_eq _ _ _)). simpl.
  unfold with_stats. simpl. rewrite insert_insert_eq. reflexivity.
Qed.

Lemma set_last_synced_stat_None now pr dir_path snap_id snap_name duration :
  m_snap_sync_stats pr !! dir_path = None ->
  set_last_synced_stat now pr dir_path snap_id snap_name duration =
    throw (out_of_range dir_path).
Proof.
  intros H. unfold set_last_synced_stat, _set_last_synced_snap.
  rewrite (update_sync_stat_None _ _ _ H). reflexivity.
Qed.

(** ** SyncEntry *)

Lemma S_ISDIR_type_bits (mode : N) :
  S_ISDIR mode = true <-> N.land mode S_IFMT = S_IFDIR.
Proof. unfold S_ISDIR. apply N.eqb_eq. Qed.

(** The four type bits of a directory: bit 14 set, bits 12, 13, 15 clear. *)
Lemma S_ISDIR_testbit (mode : N) :
  S_ISDIR mode = true <->
  N.testbit mode 14 = true /\ N.testbit mode 12 = false /\
  N.testbit mode 13 = false /\ N.testbit mode 15 = false.
Proof.
  rewrite S_ISDIR_type_bits. split.
  - intros H.
    assert (Hb : forall i, N.testbit (N.land mode S_IFMT) i = N.testbit S_IFDIR i)
      by (intros i; rewrite H; reflexivity).
    repeat split.
    + specialize (Hb 14%N). rewrite N.land_spec in Hb.
      change (N.testbit S_IFMT 14) with true in Hb.
      change (N.testbit S_IFDIR 14) with true in Hb.
      rewrite andb_true_r in Hb. exact Hb.
    + specialize (Hb 12%N). rewrite N.land_spec in Hb.
      change (N.testbit S_IFMT 12) with true in Hb.
      change (N.testbit S_IFDIR 12) with false in Hb.
      rewrite andb_true_r in Hb. exact Hb.
    + specialize (Hb 13%N). rewrite N.land_spec in Hb.
      change (N.testbit S_IFMT 13) with true in Hb.
      change (N.testbit S_IFDIR 13) with false in Hb.
      rewrite andb_true_r in Hb. exact Hb.
    + specialize (Hb 15%N). rewrite N.land_spec in Hb.
      change (N.testbit S_IFMT 15) with true in Hb.
      change (N.testbit S_IFDIR 15) with false in Hb.
      rewrite andb_true_r in Hb. exact Hb.
  - intros (H14 & H12 & H13 & H15).
    apply N.bits_inj. intros i. rewrite N.land_spec.
    destruct (N.eq_dec i 12%N) as [->|]; [rewrite H12; reflexivity|].
    destruct (N.eq_dec i 13%N) as [->|]; [rewrite H13; reflexivity|].
    destruct (N.eq_dec i 14%N) as [->|]; [rewrite H14; reflexivity|].
    destruct (N.eq_dec i 15%N) as [->|]; [rewrite H15; reflexivity|].
    assert (Hm : N.testbit S_IFMT i = false).
    { destruct (N.lt_ge_cases i 16%N) as [Hlt|Hge].
      - assert (Hc : (i = 0 \/ i = 1 \/ i = 2 \/ i = 3 \/ i = 4 \/ i = 5 \/
                     i = 6 \/ i = 7 \/ i = 8 \/ i = 9 \/ i = 10 \/ i = 11)%N)
          by lia.
        repeat (destruct Hc as [->|Hc]; [reflexivity|]). subst i. reflexivity.
      - apply N.bits_above_log2. change (N.log2 S_IFMT) with 15%N. lia. }
    assert (Hd : N.testbit S_IFDIR i = false).
    { destruct (N.lt_ge_cases i 15%N) as [Hlt|Hge].
      - assert (Hc : (i = 0 \/ i = 1 \/ i = 2 \/ i = 3 \/ i = 4 \/ i = 5 \/
                     i = 6 \/ i = 7 \/ i = 8 \/ i = 9 \/ i = 10 \/ i = 11)%N)
          by lia.
        repeat (destruct Hc as [->|Hc]; [reflexivity|]). subst i. reflexivity.
      - apply N.bits_above_log2. change (N.log2 S_IFDIR) with 14%N. lia. }
    rewrite Hm, Hd. apply andb_false_r.
Qed.

Example is_directory_dir :
  is_directory (SyncEntry_dir "a/b" (Some 7%N) (statx_of_mode mode_dir_0755)) = true.
Proof. reflexivity. Qed.

Example is_directory_regular_file :
  is_directory (SyncEntry_file "a/b" (statx_of_mode mode_reg_0644)) = false.
Proof. reflexivity. Qed.

(** A block device shares bit 14 with a directory and is not one, also
    when a traversal handle is attached to the entry. *)
Example is_directory_block_device :
  is_directory (SyncEntry_dir "a/b" (Some 7%N) (statx_of_mode mode_blk_0660)) = false.
Proof. reflexivity. Qed.

(** C7: [is_directory()] is true exactly when the file-type bits of the
    stored [stx_mode] are those of a directory; two entries whose modes
    agree on the type bits give the same answer, whatever their paths,
    traversal handles, permission bits and other metadata. *)
Theorem is_directory_from_type_bits (e : SyncEntry) :
  (is_directory e = true <-> N.land (stx_mode (stx e)) S_IFMT = S_IFDIR) /\
  (is_directory e = true <->
     N.testbit (stx_mode (stx e)) 14 = true /\
     N.testbit (stx_mode (stx e)) 12 = false /\
     N.testbit (stx_mode (stx e)) 13 = false /\
     N.testbit (stx_mode (stx e)) 15 = false) /\
  (forall e' : SyncEntry,
     N.land (stx_mode (stx e')) S_IFMT = N.land (stx_mode (stx e)) S_IFMT ->
     is_directory e' = is_directory e) /\
  (forall (path : string) (d : dir_handle),
     is_directory {| epath := path; dirp := d; stx := stx e |} = is_directory e).
Proof.
  unfold is_directory. split; [apply S_ISDIR_type_bits|].
  split; [apply S_ISDIR_testbit|]. split.
  - intros e' H. unfold S_ISDIR. rewrite H. reflexivity.
  - intros path d. reflexivity.
Qed.

(** ** Failure bookkeeping *)

Lemma inc_failed_stat_nr_failures max_failures now st :
  nr_failures (inc_failed_stat max_failures now st) = incr64 (nr_failures st).
Proof.
  unfold inc_failed_stat. simpl.
  destruct (max_failures <=? incr64 (nr_failures st))%N; reflexivity.
Qed.

Lemma inc_failed_stat_last_failed max_failures now st :
  last_failed (inc_failed_stat max_failures now st) = Some now.
Proof.
  unfold inc_failed_stat. simpl.
  destruct (max_failures <=? incr64 (nr_failures st))%N; reflexivity.
Qed.

Lemma inc_failed_stat_failed max_failures now st :
  failed (inc_failed_stat max_failures now st) =
    if (max_failures <=? incr64 (nr_failures st))%N then true else failed st.
Proof.
  unfold inc_failed_stat. simpl.
  destruct (max_failures <=? incr64 (nr_failures st))%N; reflexivity.
Qed.

Lemma inc_failed_count_Some max_failures now pr dir_path st :
  m_snap_sync_stats pr !! dir_path = Some st ->
  exists pr',
    _inc_failed_count max_failures now pr dir_path = ok pr' /\
    m_snap_sync_stats pr' !! dir_path =
      Some (inc_failed_stat max_failures now st).
Proof.
  intros H. eexists. split.
  - unfold _inc_failed_count. apply update_sync_stat_Some. exact H.
  - apply with_stats_lookup.
Qed.

Lemma reset_failed_count_Some pr dir_path st :
  m_snap_sync_stats pr !! dir_path = Some st ->
  exists pr',
    _reset_failed_count pr dir_path = ok pr' /\
    m_snap_sync_stats pr' !! dir_path = Some (reset_failed_stat st).
Proof.
  intros H. eexists. split.
  - unfold _reset_failed_count. apply update_sync_stat_Some. exact H.
  - apply with_stats_lookup.
Qed.

(** One failure: counter, timestamp and flag of the entry afterwards. *)
Lemma inc_failed_count_effect max_failures now pr dir_path st :
  m_snap_sync_stats pr !! dir_path = Some st ->
  exists pr' st',
    _inc_failed_count max_failures now pr dir_path = ok pr' /\
    m_snap_sync_stats pr' !! dir_path = Some st' /\
    nr_failures st' = incr64 (nr_failures st) /\
    ((nr_failures st < UINT64_MAX)%N ->
       nr_failures st' = (nr_failures st + 1)%N) /\
    last_failed st' = Some now /\
    ((max_failures <= nr_failures st')%N -> failed st' = true) /\
    ((nr_failures st' < max_failures)%N -> failed st' = failed st).
Proof.
  intros H.
  destruct (inc_failed_count_Some max_failures now pr dir_path st H)
    as (pr' & Hrun & Hlook).
  exists pr', (inc_failed_stat max_failures now st).
  rewrite inc_failed_stat_nr_failures, inc_failed_stat_last_failed,
    inc_failed_stat_failed.
  repeat split; try assumption.
  - apply incr64_no_overflow.
  - intros Hle. apply N.leb_le in Hle. rewrite Hle. reflexivity.
  - intros Hlt. apply N.leb_gt in Hlt. rewrite Hlt. reflexivity.
Qed.

(** Three failures in a row under a cap of 3, from a counter at 0. *)
Lemma three_failures_quarantine t1 t2 t3 pr dir_path st :
  m_snap_sync_stats pr !! dir_path = Some st ->
  nr_failures st = 0%N ->
  exists pr1 pr2 pr3 st1 st2 st3,
    _inc_failed_count 3 t1 pr dir_path = ok pr1 /\
    _inc_failed_count 3 t2 pr1 dir_path = ok pr2 /\
    _inc_failed_count 3 t3 pr2 dir_path = ok pr3 /\
    m_snap_sync_stats pr1 !! dir_path = Some st1 /\
    m_snap_sync_stats pr2 !! dir_path = Some st2 /\
    m_snap_sync_stats pr3 !! dir_path = Some st3 /\
    nr_failures st1 = 1%N /\ failed st1 = failed st /\
    nr_failures st2 = 2%N /\ failed st2 = failed st /\
    nr_failures st3 = 3%N /\ failed st3 = true /\
    last_failed st3 = Some t3.
Proof.
  intros H H0.
  destruct (inc_failed_count_Some 3 t1 pr dir_path st H) as (pr1 & R1 & L1).
  destruct (inc_failed_count_Some 3 t2 pr1 dir_path _ L1) as (pr2 & R2 & L2).
  destruct (inc_failed_count_Some 3 t3 pr2 dir_path _ L2) as (pr3 & R3 & L3).
  exists pr1, pr2, pr3. do 3 eexists.
  split; [exact R1|]. split; [exact R2|]. split; [exact R3|].
  split; [exact L1|]. split; [exact L2|]. split; [exact L3|].
  rewrite !inc_failed_stat_nr_failures, !inc_failed_stat_failed,
    !inc_failed_stat_last_failed, !inc_failed_stat_nr_failures, H0.
  repeat split; reflexivity.
Qed.

(** C2: [_inc_failed_count] adds one to the directory's [nr_failures] (a
    [uint64_t] increment), stamps [last_failed] with the current time,
    and sets [failed] when the incremented counter has reached the cap,
    leaving the flag as it was otherwise; with a cap of 3, three calls
    from a counter at 0 leave [failed = true], and one
    [_reset_failed_count] then gives a counter of 0 and [failed = false]. *)
Theorem record_failure_quarantine (max_failures : N) (now t1 t2 t3 : time)
    (pr : PeerReplayer) (dir_path : string) (st : SnapSyncStat) :
  m_snap_sync_stats pr !! dir_path = Some st ->
  (exists pr' st',
     _inc_failed_count max_failures now pr dir_path = ok pr' /\
     m_snap_sync_stats pr' !! dir_path = Some st' /\
     nr_failures st' = incr64 (nr_failures st) /\
     ((nr_failures st < UINT64_MAX)%N ->
        nr_failures st' = (nr_failures st + 1)%N) /\
     last_failed st' = Some now /\
     ((max_failures <= nr_failures st')%N -> failed st' = true) /\
     ((nr_failures st' < max_failures)%N -> failed st' = failed st)) /\
  (exists pr' st',
     _reset_failed_count pr dir_path = ok pr' /\
     m_snap_sync_stats pr' !! dir_path = Some st' /\
     nr_failures st' = 0%N /\ failed st' = false /\ last_failed st' = None) /\
  (nr_failures st = 0%N ->
   exists pr1 pr2 pr3 pr4 st2 st3 st4,
     _inc_failed_count 3 t1 pr dir_path = ok pr1 /\
     _inc_failed_count 3 t2 pr1 dir_path = ok pr2 /\
     _inc_failed_count 3 t3 pr2 dir_path = ok pr3 /\
     _reset_failed_count pr3 dir_path = ok pr4 /\
     m_snap_sync_stats pr2 !! dir_path = Some st2 /\
     m_snap_sync_stats pr3 !! dir_path = Some st3 /\
     m_snap_sync_stats pr4 !! dir_path = Some st4 /\
     nr_failures st2 = 2%N /\ failed st2 = failed st /\
     nr_failures st3 = 3%N /\ failed st3 = true /\
     nr_failures st4 = 0%N /\ failed st4 = false).
Proof.
  intros H. split; [|split].
  - apply inc_failed_count_effect. exact H.
  - destruct (reset_failed_count_Some pr dir_path st H) as (pr' & R & L).
    exists pr', (reset_failed_stat st). repeat split; assumption.
  - intros H0.
    destruct (three_failures_quarantine t1 t2 t3 pr dir_path st H H0)
      as (pr1 & pr2 & pr3 & st1 & st2 & st3 & R1 & R2 & R3 & L1 & L2 & L3
          & N1 & F1 & N2 & F2 & N3 & F3 & _).
    destruct (reset_failed_count_Some pr3 dir_path st3 L3) as (pr4 & R4 & L4).
    exists pr1, pr2, pr3, pr4, st2, st3, (reset_failed_stat st3).
    repeat split; assumption.
Qed.

Lemma record_failure_quarantine_witness :
  m_snap_sync_stats sample_replayer !! "/data" = Some SnapSyncStat_init /\
  exists pr1 pr2 pr3 pr4 st2 st3 st4,
    _inc_failed_count 3 11%N sample_replayer "/data" = ok pr1 /\
    _inc_failed_count 3 12%N pr1 "/data" = ok pr2 /\
    _inc_failed_count 3 13%N pr2 "/data" = ok pr3 /\
    _reset_failed_count pr3 "/data" = ok pr4 /\
    m_snap_sync_stats pr2 !! "/data" = Some st2 /\
    m_snap_sync_stats pr3 !! "/data" = Some st3 /\
    m_snap_sync_stats pr4 !! "/data" = Some st4 /\
    nr_failures st2 = 2%N /\ failed st2 = failed SnapSyncStat_init /\
    nr_failures st3 = 3%N /\ failed st3 = true /\
    nr_failures st4 = 0%N /\ failed st4 = false.
Proof.
  split; [reflexivity|].
  apply (record_failure_quarantine 3 10%N 11%N 12%N 13%N sample_replayer
           "/data" SnapSyncStat_init); reflexivity.
Defined.

(** ** Recording a success *)

(** What [set_last_synced_stat] does on "/data" of the quarantined
    replayer: the failure counter stays at 3 and the flag stays set. *)
Lemma set_last_synced_stat_keeps_failure_state :
  exists pr' st',
    set_last_synced_stat 100%N quarantined_replayer "/data" 2%N "s2"
      PrimFloat.two = ok pr' /\
    m_snap_sync_stats pr' !! "/data" = Some st' /\
    nr_failures st' = 3%N /\ failed st' = true /\
    ~ (nr_failures st' = 0%N /\ failed st' = false).
Proof.
  eexists. eexists. split.
  - apply (set_last_synced_stat_Some _ _ _ _ _ _ quarantined_stat).
    reflexivity.
  - split; [apply with_stats_lookup|].
    simpl. repeat split. intros [H _]. discriminate H.
Qed.

(** C3, as the code has it: [set_last_synced_stat] clears
    [current_syncing_snap], sets [last_synced_snap] to the pair
    [(snap_id, snap_name)], stores the duration and the current time, and
    increments [synced_snap_count] (a [uint64_t] increment); the failure
    counter, the last-failure timestamp and the [failed] flag keep their
    values, as do the deleted and renamed counts. *)
Theorem set_last_synced_stat_effect (now : time) (pr : PeerReplayer)
    (dir_path : string) (snap_id : N) (snap_name : string)
    (duration : double) (st : SnapSyncStat) :
  m_snap_sync_stats pr !! dir_path = Some st ->
  exists pr' st',
    set_last_synced_stat now pr dir_path snap_id snap_name duration = ok pr' /\
    m_snap_sync_stats pr' !! dir_path = Some st' /\
    current_syncing_snap st' = None /\
    last_synced_snap st' = Some (snap_id, snap_name) /\
    last_sync_duration st' = Some duration /\
    last_synced st' = now /\
    synced_snap_count st' = incr64 (synced_snap_count st) /\
    ((synced_snap_count st < UINT64_MAX)%N ->
       synced_snap_count st' = (synced_snap_count st + 1)%N) /\
    nr_failures st' = nr_failures st /\
    failed st' = failed st /\
    last_failed st' = last_failed st /\
    deleted_snap_count st' = deleted_snap_count st /\
    renamed_snap_count st' = renamed_snap_count st.
Proof.
  intros H. eexists. eexists. split.
  - apply (set_last_synced_stat_Some _ _ _ _ _ _ st). exact H.
  - split; [apply with_stats_lookup|].
    simpl. repeat split. apply incr64_no_overflow.
Qed.

Lemma set_last_synced_stat_effect_witness :
  m_snap_sync_stats quarantined_replayer !! "/data" = Some quarantined_stat /\
  exists pr' st',
    set_last_synced_stat 100%N quarantined_replayer "/data" 2%N "s2"
      PrimFloat.two = ok pr' /\
    m_snap_sync_stats pr' !! "/data" = Some st' /\
    current_syncing_snap st' = None /\
    last_synced_snap st' = Some (2%N, "s2") /\
    last_sync_duration st' = Some PrimFloat.two /\
    last_synced st' = 100%N /\
    synced_snap_count st' = incr64 (synced_snap_count quarantined_stat) /\
    ((synced_snap_count quarantined_stat < UINT64_MAX)%N ->
       synced_snap_count st' = (synced_snap_count quarantined_stat + 1)%N) /\
    nr_failures st' = nr_failures quarantined_stat /\
    failed st' = failed quarantined_stat /\
    last_failed st' = last_failed quarantined_stat /\
    deleted_snap_count st' = deleted_snap_count quarantined_stat /\
    renamed_snap_count st' = renamed_snap_count quarantined_stat.
Proof.
  split; [reflexivity|].
  apply (set_last_synced_stat_effect 100%N quarantined_replayer "/data" 2%N
           "s2" PrimFloat.two quarantined_stat).
  reflexivity.
Defined.

(** ** Frame of the statistics mutators *)

Lemma run_stat_op_Some op pr dir_path st :
  m_snap_sync_stats pr !! dir_path = Some st ->
  run_stat_op op pr dir_path =
    ok (with_stats pr
          (<[dir_path := stat_op_update op st]> (m_snap_sync_stats pr))).
Proof.
  intros H. destruct op; simpl;
    first [ apply set_last_synced_stat_Some; exact H
          | exact (update_sync_stat_Some pr dir_path _ st H) ].
Qed.

Lemma run_stat_op_None op pr dir_path :
  m_snap_sync_stats pr !! dir_path = None ->
  run_stat_op op pr dir_path = throw (out_of_range dir_path).
Proof.
  intros H. destruct op; simpl;
    first [ apply set_last_synced_stat_None; exact H
          | exact (update_sync_stat_None pr dir_path _ H) ].
Qed.

Lemma run_stat_op_ok_inv op pr dir_path pr' :
  run_stat_op op pr dir_path = ok pr' ->
  exists st,
    m_snap_sync_stats pr !! dir_path = Some st /\
    pr' = with_stats pr
            (<[dir_path := stat_op_update op st]> (m_snap_sync_stats pr)).
Proof.
  intros H. destruct (m_snap_sync_stats pr !! dir_path) as [st|] eqn:E.
  - exists st. split; [reflexivity|].
    rewrite (run_stat_op_Some op pr dir_path st E) in H.
    unfold ok in H. congruence.
  - rewrite (run_stat_op_None op pr dir_path E) in H.
    unfold ok, throw in H. discriminate H.
Qed.

(** C9: each of the eight statistics mutators, applied to [dir_path],
    rewrites the [SnapSyncStat] entry of [dir_path] and nothing else:
    the entry of every other path is as before, no entry appears or
    disappears, and [m_directories] and [m_registered] (as well as
    [m_stopping], the blocklist oracle and the thread objects) are
    unchanged; when [dir_path] has no entry the mutator throws before
    writing anything. *)
Theorem stat_ops_frame (op : StatOp) (pr : PeerReplayer) (dir_path : string) :
  (m_snap_sync_stats pr !! dir_path = None ->
   run_stat_op op pr dir_path = throw (out_of_range dir_path)) /\
  (forall st, m_snap_sync_stats pr !! dir_path = Some st ->
   exists pr',
     run_stat_op op pr dir_path = ok pr' /\
     (forall other : string, other <> dir_path ->
        m_snap_sync_stats pr' !! other = m_snap_sync_stats pr !! other) /\
     dom (m_snap_sync_stats pr') = dom (m_snap_sync_stats pr) /\
     m_directories pr' = m_directories pr /\
     m_registered pr' = m_registered pr /\
     m_stopping pr' = m_stopping pr /\
     m_fs_mirror pr' = m_fs_mirror pr /\
     threads pr' = threads pr).
Proof.
  split; [apply run_stat_op_None|].
  intros st H. eexists. split; [apply run_stat_op_Some; exact H|].
  split; [intros other Hne; apply with_stats_lookup_ne; exact Hne|].
  split; [|repeat split].
  simpl. rewrite dom_insert_L.
  apply subseteq_union_1_L, singleton_subseteq_l, elem_of_dom.
  exists st. exact H.
Qed.

Lemma stat_ops_frame_witness :
  m_snap_sync_stats quarantined_replayer !! "/data" = Some quarantined_stat /\
  (exists pr',
     run_stat_op (op_set_last_synced_stat 100%N 2%N "s2" PrimFloat.two)
       quarantined_replayer "/data" = ok pr' /\
     m_snap_sync_stats pr' !! "/home" = Some SnapSyncStat_init /\
     m_directories pr' = ["/data"; "/home"] /\
     m_registered pr' = m_registered quarantined_replayer) /\
  run_stat_op op_inc_deleted_snap quarantined_replayer "/tmp" =
    throw (out_of_range "/tmp").
Proof.
  split; [reflexivity|]. split.
  - destruct (proj2 (stat_ops_frame
                       (op_set_last_synced_stat 100%N 2%N "s2" PrimFloat.two)
                       quarantined_replayer "/data") quarantined_stat eq_refl)
      as (pr' & Hrun & Hother & _ & Hdirs & Hreg & _).
    exists pr'. split; [exact Hrun|]. split; [|split].
    + rewrite (Hother "/home"); [reflexivity | discriminate].
    + rewrite Hdirs. reflexivity.
    + exact Hreg.
  - apply (proj1 (stat_ops_frame op_inc_deleted_snap quarantined_replayer "/tmp")).
    reflexivity.
Defined.

(** ** should_backoff *)

Lemma should_backoff_blocklisted pr dir_path :
  is_blocklisted (m_fs_mirror pr) = true ->
  should_backoff pr dir_path = (ok (true, - EBLOCKLISTED), trace_blocklisted).
Proof. intros H. unfold should_backoff. simpl. rewrite H. reflexivity. Qed.

Lemma should_backoff_stopping pr dir_path :
  is_blocklisted (m_fs_mirror pr) = false ->
  m_stopping pr = true ->
  should_backoff pr dir_path = (ok (true, - EINPROGRESS), trace_stopping).
Proof.
  intros Hb Hs. unfold should_backoff, is_stopping. simpl.
  rewrite Hb. simpl. rewrite Hs. reflexivity.
Qed.

Lemma should_backoff_registered pr dir_path dr :
  is_blocklisted (m_fs_mirror pr) = false ->
  m_stopping pr = false ->
  m_registered pr !! dir_path = Some dr ->
  should_backoff pr dir_path =
    (ok (if SnapshotReplayerThread.is_canceled (threads pr (replayer dr))
         then (true, - ECANCELED) else (false, 0)),
     trace_polled dir_path (replayer dr)).
Proof.
  intros Hb Hs Hr. unfold should_backoff, is_stopping. simpl.
  rewrite Hb. simpl. rewrite Hs. simpl.
  rewrite (map_at_Some _ _ _ Hr). simpl.
  destruct (SnapshotReplayerThread.is_canceled (threads pr (replayer dr)));
    reflexivity.
Qed.

Lemma should_backoff_unregistered pr dir_path :
  is_blocklisted (m_fs_mirror pr) = false ->
  m_stopping pr = false ->
  m_registered pr !! dir_path = None ->
  should_backoff pr dir_path =
    (throw (out_of_range dir_path), trace_lookup_failed dir_path).
Proof.
  intros Hb Hs Hr. unfold should_backoff, is_stopping. simpl.
  rewrite Hb. simpl. rewrite Hs. simpl.
  rewrite (map_at_None _ _ Hr). reflexivity.
Qed.

(** The four ways through [should_backoff], as one case analysis. *)
Lemma should_backoff_cases pr dir_path :
  (is_blocklisted (m_fs_mirror pr) = true /\
   should_backoff pr dir_path = (ok (true, - EBLOCKLISTED), trace_blocklisted))
  \/
  (is_blocklisted (m_fs_mirror pr) = false /\ m_stopping pr = true /\
   should_backoff pr dir_path = (ok (true, - EINPROGRESS), trace_stopping))
  \/
  (is_blocklisted (m_fs_mirror pr) = false /\ m_stopping pr = false /\
   m_registered pr !! dir_path = None /\
   should_backoff pr dir_path =
     (throw (out_of_range dir_path), trace_lookup_failed dir_path))
  \/
  (exists dr,
     is_blocklisted (m_fs_mirror pr) = false /\ m_stopping pr = false /\
     m_registered pr !! dir_path = Some dr /\
     should_backoff pr dir_path =
       (ok (if SnapshotReplayerThread.is_canceled (threads pr (replayer dr))
            then (true, - ECANCELED) else (false, 0)),
        trace_polled dir_path (replayer dr))).
Proof.
  destruct (is_blocklisted (m_fs_mirror pr)) eqn:Hb.
  { left. split; [reflexivity|]. apply should_backoff_blocklisted, Hb. }
  destruct (m_stopping pr) eqn:Hs.
  { right. left. repeat split. apply should_backoff_stopping; assumption. }
  destruct (m_registered pr !! dir_path) as [dr|] eqn:Hr.
  - right. right. right. exists dr. repeat split.
    apply should_backoff_registered; assumption.
  - right. right. left. repeat split.
    apply should_backoff_unregistered; assumption.
Qed.

(** C1: [should_backoff] checks, in this order, the blocklist oracle,
    then (under the lock) the stopping flag, then the canceled flag of
    the worker registered for [dir_path].  A blocklisted session gives
    [true] with [-EBLOCKLISTED] after the oracle query alone: no lock is
    taken and the registry is not read.  Otherwise a stopping replayer
    gives [true] with [-EINPROGRESS], without a registry lookup.
    Otherwise a canceled registered worker gives [true] with
    [-ECANCELED], and a registered worker that is not canceled gives
    [false] with [*retval = 0]. *)
Theorem should_backoff_order (pr : PeerReplayer) (dir_path : string) :
  (is_blocklisted (m_fs_mirror pr) = true ->
   should_backoff pr dir_path = (ok (true, - EBLOCKLISTED), [ev_is_blocklisted]))
  /\
  (is_blocklisted (m_fs_mirror pr) = false ->
   m_stopping pr = true ->
   should_backoff pr dir_path =
     (ok (true, - EINPROGRESS),
      [ev_is_blocklisted; ev_lock; ev_is_stopping; ev_unlock]))
  /\
  (forall dr : DirRegistry,
   is_blocklisted (m_fs_mirror pr) = false ->
   m_stopping pr = false ->
   m_registered pr !! dir_path = Some dr ->
   SnapshotReplayerThread.is_canceled (threads pr (replayer dr)) = true ->
   should_backoff pr dir_path =
     (ok (true, - ECANCELED),
      [ev_is_blocklisted; ev_lock; ev_is_stopping; ev_registered_at dir_path;
       ev_is_canceled (replayer dr); ev_unlock]))
  /\
  (forall dr : DirRegistry,
   is_blocklisted (m_fs_mirror pr) = false ->
   m_stopping pr = false ->
   m_registered pr !! dir_path = Some dr ->
   SnapshotReplayerThread.is_canceled (threads pr (replayer dr)) = false ->
   should_backoff pr dir_path =
     (ok (false, 0),
      [ev_is_blocklisted; ev_lock; ev_is_stopping; ev_registered_at dir_path;
       ev_is_canceled (replayer dr); ev_unlock])).
Proof.
  split; [apply should_backoff_blocklisted|].
  split; [apply should_backoff_stopping|].
  split; intros dr Hb Hs Hr Hc;
    rewrite (should_backoff_registered pr dir_path dr Hb Hs Hr), Hc;
    reflexivity.
Qed.

Lemma should_backoff_order_witness :
  should_backoff (set_blocklisted true sample_replayer) "/unregistered" =
    (ok (true, -108), [ev_is_blocklisted]) /\
  should_backoff (set_stopping true sample_replayer) "/unregistered" =
    (ok (true, -115), [ev_is_blocklisted; ev_lock; ev_is_stopping; ev_unlock]) /\
  should_backoff (cancel_thread sample_replayer 1%N) "/data" =
    (ok (true, -125),
     [ev_is_blocklisted; ev_lock; ev_is_stopping; ev_registered_at "/data";
      ev_is_canceled 1%N; ev_unlock]) /\
  should_backoff sample_replayer "/data" =
    (ok (false, 0),
     [ev_is_blocklisted; ev_lock; ev_is_stopping; ev_registered_at "/data";
      ev_is_canceled 1%N; ev_unlock]).
Proof.
  split; [|split; [|split]].
  - apply (proj1 (should_backoff_order (set_blocklisted true sample_replayer)
                    "/unregistered")).
    reflexivity.
  - apply (proj1 (proj2 (should_backoff_order
                           (set_stopping true sample_replayer)
                           "/unregistered"))); reflexivity.
  - apply (proj1 (proj2 (proj2 (should_backoff_order
                                  (cancel_thread sample_replayer 1%N) "/data")))
             {| fd := 3; replayer := 1%N |}); reflexivity.
  - apply (proj2 (proj2 (proj2 (should_backoff_order sample_replayer "/data")))
             {| fd := 3; replayer := 1%N |}); reflexivity.
Defined.

Lemma backoff_codes_pairwise_distinct :
  - EBLOCKLISTED <> - EINPROGRESS /\
  - EBLOCKLISTED <> - ECANCELED /\
  - EINPROGRESS <> - ECANCELED /\
  - EBLOCKLISTED <> 0 /\ - EINPROGRESS <> 0 /\ - ECANCELED <> 0.
Proof. unfold EBLOCKLISTED, EINPROGRESS, ECANCELED. lia. Qed.

Ltac backoff_case H :=
  unfold outcome in H; simpl in H; unfold ok, throw in H;
  try discriminate H; try (injection H as <- <-).

(** When [should_backoff] returns, the code in [*retval] identifies the
    branch that was taken. *)
Lemma backoff_code_reason (pr : PeerReplayer) (dir_path : string)
    (b : bool) (code : Z) :
  outcome (should_backoff pr dir_path) = ok (b, code) ->
  (- EBLOCKLISTED <> - EINPROGRESS /\
   - EBLOCKLISTED <> - ECANCELED /\
   - EINPROGRESS <> - ECANCELED) /\
  (code = - EBLOCKLISTED <-> is_blocklisted (m_fs_mirror pr) = true) /\
  (code = - EINPROGRESS <->
     is_blocklisted (m_fs_mirror pr) = false /\ m_stopping pr = true) /\
  (code = - ECANCELED <->
     is_blocklisted (m_fs_mirror pr) = false /\ m_stopping pr = false /\
     exists dr, m_registered pr !! dir_path = Some dr /\
       SnapshotReplayerThread.is_canceled (threads pr (replayer dr)) = true) /\
  (code = 0 <-> b = false) /\
  (b = true <->
     code = - EBLOCKLISTED \/ code = - EINPROGRESS \/ code = - ECANCELED).
Proof.
  intros H.
  split; [pose proof backoff_codes_pairwise_distinct; tauto|].
  destruct (should_backoff_cases pr dir_path)
    as [(Hb & E) | [(Hb & Hs & E) | [(Hb & Hs & Hr & E) | (dr & Hb & Hs & Hr & E)]]];
    rewrite E in H; backoff_case H.
  - rewrite Hb. unfold EBLOCKLISTED, EINPROGRESS, ECANCELED.
    repeat split; try tauto; try lia; try discriminate;
      try (intros (? & ?); discriminate).
  - rewrite Hb, Hs. unfold EBLOCKLISTED, EINPROGRESS, ECANCELED.
    repeat split; try tauto; try lia; try discriminate;
      try (intros (? & ? & ?); discriminate).
  - rewrite Hb, Hs.
    destruct (SnapshotReplayerThread.is_canceled (threads pr (replayer dr)))
      eqn:Hc; injection H as <- <-;
      unfold EBLOCKLISTED, EINPROGRESS, ECANCELED.
    + repeat split; try tauto; try lia; try discriminate;
        try (intros (? & ?); discriminate).
      exists dr. split; assumption.
    + repeat split; try tauto; try lia; try discriminate;
        try (intros (? & ?); discriminate).
      intros (_ & _ & dr' & Hr' & Hc'). rewrite Hr in Hr'.
      injection Hr' as <-. rewrite Hc in Hc'. discriminate Hc'.
Qed.

(** C4: [should_backoff] surfaces its three reasons as three pairwise
    distinct, non-zero codes, for every directory: a blocklisted session
    yields [-EBLOCKLISTED]; a stopping replayer that is not blocklisted
    yields [-EINPROGRESS]; when neither holds, a registered worker whose
    [canceled] flag is set (in particular one on which [cancel()] has
    just been called) yields [-ECANCELED], and one whose flag is clear
    yields [false] with [0].  Conversely, whenever [should_backoff]
    returns, the code tells the reason apart, so fencing is always
    distinguishable from shutdown. *)
Theorem backoff_codes_distinguish (pr : PeerReplayer) (dir_path : string) :
  (- EBLOCKLISTED <> - EINPROGRESS /\
   - EBLOCKLISTED <> - ECANCELED /\
   - EINPROGRESS <> - ECANCELED /\
   - EBLOCKLISTED <> 0 /\ - EINPROGRESS <> 0 /\ - ECANCELED <> 0) /\
  (is_blocklisted (m_fs_mirror pr) = true ->
   outcome (should_backoff pr dir_path) = ok (true, - EBLOCKLISTED)) /\
  (is_blocklisted (m_fs_mirror pr) = false -> m_stopping pr = true ->
   outcome (should_backoff pr dir_path) = ok (true, - EINPROGRESS)) /\
  (forall dr : DirRegistry,
   is_blocklisted (m_fs_mirror pr) = false -> m_stopping pr = false ->
   m_registered pr !! dir_path = Some dr ->
   SnapshotReplayerThread.canceled (threads pr (replayer dr)) = true ->
   outcome (should_backoff pr dir_path) = ok (true, - ECANCELED)) /\
  (forall dr : DirRegistry,
   is_blocklisted (m_fs_mirror pr) = false -> m_stopping pr = false ->
   m_registered pr !! dir_path = Some dr ->
   outcome (should_backoff (cancel_thread pr (replayer dr)) dir_path)
     = ok (true, - ECANCELED)) /\
  (forall dr : DirRegistry,
   is_blocklisted (m_fs_mirror pr) = false -> m_stopping pr = false ->
   m_registered pr !! dir_path = Some dr ->
   SnapshotReplayerThread.canceled (threads pr (replayer dr)) = false ->
   outcome (should_backoff pr dir_path) = ok (false, 0)) /\
  (forall (b : bool) (code : Z),
   outcome (should_backoff pr dir_path) = ok (b, code) ->
   (code = - EBLOCKLISTED <-> is_blocklisted (m_fs_mirror pr) = true) /\
   (code = - EINPROGRESS <->
      is_blocklisted (m_fs_mirror pr) = false /\ m_stopping pr = true) /\
   (code = - ECANCELED <->
      is_blocklisted (m_fs_mirror pr) = false /\ m_stopping pr = false /\
      exists dr, m_registered pr !! dir_path = Some dr /\
        SnapshotReplayerThread.canceled (threads pr (replayer dr)) = true) /\
   (code = 0 <-> b = false) /\
   (b = true <->
      code = - EBLOCKLISTED \/ code = - EINPROGRESS \/ code = - ECANCELED)).
Proof.
  split; [apply backoff_codes_pairwise_distinct|].
  split; [intros Hb; rewrite (should_backoff_blocklisted pr dir_path Hb);
          reflexivity|].
  split; [intros Hb Hs; rewrite (should_backoff_stopping pr dir_path Hb Hs);
          reflexivity|].
  split; [|split; [|split]].
  - intros dr Hb Hs Hr Hc.
    rewrite (should_backoff_registered pr dir_path dr Hb Hs Hr).
    unfold SnapshotReplayerThread.is_canceled. rewrite Hc. reflexivity.
  - intros dr Hb Hs Hr.
    rewrite (should_backoff_registered (cancel_thread pr (replayer dr))
               dir_path dr Hb Hs Hr).
    unfold outcome. simpl. rewrite N.eqb_refl. reflexivity.
  - intros dr Hb Hs Hr Hc.
    rewrite (should_backoff_registered pr dir_path dr Hb Hs Hr).
    unfold SnapshotReplayerThread.is_canceled. rewrite Hc. reflexivity.
  - intros b code H.
    destruct (backoff_code_reason pr dir_path b code H)
      as (_ & H1 & H2 & H3 & H4 & H5).
    split; [exact H1|]. split; [exact H2|]. split; [exact H3|].
    split; [exact H4|exact H5].
Qed.

Lemma backoff_codes_distinguish_witness :
  outcome (should_backoff (set_blocklisted true sample_replayer) "/data")
    = ok (true, -108) /\
  outcome (should_backoff (set_stopping true sample_replayer) "/data")
    = ok (true, -115) /\
  outcome (should_backoff (cancel_thread sample_replayer 1%N) "/data")
    = ok (true, -125) /\
  outcome (should_backoff sample_replayer "/data") = ok (false, 0) /\
  outcome (should_backoff (set_stopping true (set_blocklisted true sample_replayer))
             "/data") = ok (true, -108) /\
  (-108 = - EBLOCKLISTED <->
     is_blocklisted
       (m_fs_mirror (set_stopping true (set_blocklisted true sample_replayer)))
     = true).
Proof.
  pose proof (backoff_codes_distinguish
                (set_blocklisted true sample_replayer) "/data")
    as (_ & Hb & _).
  pose proof (backoff_codes_distinguish
                (set_stopping true sample_replayer) "/data")
    as (_ & _ & Hs & _).
  pose proof (backoff_codes_distinguish sample_replayer "/data")
    as (_ & _ & _ & _ & Hc & Hn & _).
  pose proof (backoff_codes_distinguish
                (set_stopping true (set_blocklisted true sample_replayer))
                "/data")
    as (_ & Hbs & _ & _ & _ & _ & Hiff).
  split; [apply Hb; reflexivity|].
  split; [apply Hs; reflexivity|].
  split; [apply (Hc {| fd := 3; replayer := 1%N |}); reflexivity|].
  split; [apply (Hn {| fd := 3; replayer := 1%N |}); reflexivity|].
  split; [apply Hbs; reflexivity|].
  apply (Hiff true (-108)). apply Hbs. reflexivity.
Defined.

(** C8: the registry is read only after the blocklist and stopping checks
    have both answered false.  A blocklisted or stopping replayer answers
    [true] for any path, registered or not, and its trace has no registry
    lookup; a registered path never makes [should_backoff] throw; and
    [should_backoff] throws exactly when neither check fires and the
    path has no registry entry, the exception being the [out_of_range]
    of that lookup. *)
Theorem registry_lookup_guarded (pr : PeerReplayer) (dir_path : string) :
  (is_blocklisted (m_fs_mirror pr) = true \/ m_stopping pr = true ->
   (exists code, outcome (should_backoff pr dir_path) = ok (true, code)) /\
   (forall d, ev_registered_at d ∉ trace (should_backoff pr dir_path))) /\
  (is_Some (m_registered pr !! dir_path) ->
   exists r, outcome (should_backoff pr dir_path) = ok r) /\
  (forall e : Exn,
   outcome (should_backoff pr dir_path) = throw e <->
   is_blocklisted (m_fs_mirror pr) = false /\ m_stopping pr = false /\
   m_registered pr !! dir_path = None /\ e = out_of_range dir_path) /\
  (forall d, ev_registered_at d ∈ trace (should_backoff pr dir_path) ->
   d = dir_path /\
   is_blocklisted (m_fs_mirror pr) = false /\ m_stopping pr = false /\
   exists rest,
     trace (should_backoff pr dir_path) =
       ev_is_blocklisted :: ev_lock :: ev_is_stopping ::
       ev_registered_at dir_path :: rest).
Proof.
  destruct (should_backoff_cases pr dir_path)
    as [(Hb & E) | [(Hb & Hs & E) | [(Hb & Hs & Hr & E) | (dr & Hb & Hs & Hr & E)]]];
    rewrite E; unfold outcome, trace; simpl; rewrite ?Hb, ?Hs, ?Hr.
  - split; [intros _; split; [eexists; reflexivity|]|].
    { intros d Hin. apply list_elem_of_singleton in Hin. discriminate Hin. }
    split; [intros _; eexists; reflexivity|].
    split.
    + intros e. split; [intros H; discriminate H|].
      intros (H & _). discriminate H.
    + intros d Hin. apply list_elem_of_singleton in Hin. discriminate Hin.
  - split; [intros _; split; [eexists; reflexivity|]|].
    { intros d Hin. unfold trace_stopping in Hin.
      repeat (apply elem_of_cons in Hin as [Hin|Hin]; [discriminate Hin|]).
      apply elem_of_nil in Hin. exact Hin. }
    split; [intros _; eexists; reflexivity|].
    split.
    + intros e. split; [intros H; discriminate H|].
      intros (_ & H & _). discriminate H.
    + intros d Hin. unfold trace_stopping in Hin.
      repeat (apply elem_of_cons in Hin as [Hin|Hin]; [discriminate Hin|]).
      apply elem_of_nil in Hin. destruct Hin.
  - split; [intros [H|H]; discriminate H|].
    split; [intros [x Hx]; discriminate Hx|].
    split.
    + intros e. split.
      * intros H. unfold throw in H. injection H as <-. repeat split.
      * intros (_ & _ & _ & ->). reflexivity.
    + intros d Hin. unfold trace_lookup_failed in *.
      do 3 (apply elem_of_cons in Hin as [Hin|Hin]; [discriminate Hin|]).
      apply elem_of_cons in Hin as [Hin|Hin].
      * injection Hin as ->. repeat split. eexists. reflexivity.
      * apply elem_of_cons in Hin as [Hin|Hin]; [discriminate Hin|].
        apply elem_of_nil in Hin. destruct Hin.
  - split; [intros [H|H]; discriminate H|].
    split; [intros _; eexists; reflexivity|].
    split.
    + intros e. split; [intros H; discriminate H|].
      intros (_ & _ & H & _). discriminate H.
    + intros d Hin. unfold trace_polled in *.
      do 3 (apply elem_of_cons in Hin as [Hin|Hin]; [discriminate Hin|]).
      apply elem_of_cons in Hin as [Hin|Hin].
      * injection Hin as ->. repeat split. eexists. reflexivity.
      * do 2 (apply elem_of_cons in Hin as [Hin|Hin]; [discriminate Hin|]).
        apply elem_of_nil in Hin. destruct Hin.
Qed.

Lemma registry_lookup_guarded_witness :
  m_registered sample_replayer !! "/unregistered" = None /\
  (exists code,
     outcome (should_backoff (set_blocklisted true sample_replayer)
                "/unregistered") = ok (true, code)) /\
  (exists code,
     outcome (should_backoff (set_stopping true sample_replayer)
                "/unregistered") = ok (true, code)) /\
  (exists r, outcome (should_backoff sample_replayer "/data") = ok r) /\
  outcome (should_backoff sample_replayer "/unregistered") =
    throw (out_of_range "/unregistered").
Proof.
  split; [reflexivity|]. split; [|split; [|split]].
  - apply (proj1 (registry_lookup_guarded
                    (set_blocklisted true sample_replayer) "/unregistered")).
    left. reflexivity.
  - apply (proj1 (registry_lookup_guarded
                    (set_stopping true sample_replayer) "/unregistered")).
    right. reflexivity.
  - apply (proj1 (proj2 (registry_lookup_guarded sample_replayer "/data"))).
    eexists. reflexivity.
  - apply (proj1 (proj2 (proj2 (registry_lookup_guarded sample_replayer
                                  "/unregistered")))).
    repeat split.
Defined.

(** ** Cancellation *)

Lemma cancel_is_canceled (th : SnapshotReplayerThread.t) :
  SnapshotReplayerThread.is_canceled (SnapshotReplayerThread.cancel th) = true.
Proof. reflexivity. Qed.

Lemma cancel_thread_canceled pr th :
  SnapshotReplayerThread.is_canceled (threads (cancel_thread pr th) th) = true.
Proof. simpl. rewrite N.eqb_refl. reflexivity. Qed.

(** No action clears a flag that is set. *)
Lemma step_keeps_canceled pr a pr' th :
  step pr a = ok pr' ->
  SnapshotReplayerThread.is_canceled (threads pr th) = true ->
  SnapshotReplayerThread.is_canceled (threads pr' th) = true.
Proof.
  intros Hstep Hc. destruct a as [th' | op d | fs reg dirs stats stopping];
    simpl in Hstep.
  - unfold ok in Hstep. injection Hstep as <-. simpl.
    destruct (th =? th')%N; [reflexivity | exact Hc].
  - apply run_stat_op_ok_inv in Hstep as (st & _ & ->). exact Hc.
  - unfold ok in Hstep. injection Hstep as <-. exact Hc.
Qed.

Lemma run_keeps_canceled actions : forall pr pr' th,
  run pr actions = ok pr' ->
  SnapshotReplayerThread.is_canceled (threads pr th) = true ->
  SnapshotReplayerThread.is_canceled (threads pr' th) = true.
Proof.
  induction actions as [|a rest IH]; intros pr pr' th Hrun Hc; simpl in Hrun.
  - unfold ok in Hrun. injection Hrun as <-. exact Hc.
  - destruct (step pr a) as [e|pr1] eqn:Hstep; simpl in Hrun.
    + unfold ok in Hrun. discriminate Hrun.
    + apply (IH pr1 pr' th Hrun).
      apply (step_keeps_canceled pr a pr1 th Hstep Hc).
Qed.

(** C10: after [cancel()] on the thread at [th], [is_canceled()] is true
    and stays true over every later sequence of actions (further
    cancels, statistics mutators, and the other members rewriting the
    replayer's fields); so at every later poll, for every directory
    whose registry entry points to [th], [should_backoff] answers [true]
    with [-ECANCELED] unless the blocklisted or stopping branch fires
    first. *)
Theorem cancel_is_one_way (pr : PeerReplayer) (th : thread_ptr)
    (actions : list Action) (pr' : PeerReplayer) :
  run (cancel_thread pr th) actions = ok pr' ->
  SnapshotReplayerThread.is_canceled (threads (cancel_thread pr th) th) = true /\
  SnapshotReplayerThread.is_canceled (threads pr' th) = true /\
  (forall (dir_path : string) (dr : DirRegistry),
     m_registered pr' !! dir_path = Some dr ->
     replayer dr = th ->
     is_blocklisted (m_fs_mirror pr') = false ->
     m_stopping pr' = false ->
     should_backoff pr' dir_path =
       (ok (true, - ECANCELED), trace_polled dir_path th)).
Proof.
  intros Hrun.
  pose proof (cancel_thread_canceled pr th) as H0.
  pose proof (run_keeps_canceled actions _ _ th Hrun H0) as H1.
  split; [exact H0|]. split; [exact H1|].
  intros dir_path dr Hr <- Hb Hs.
  rewrite (should_backoff_registered pr' dir_path dr Hb Hs Hr), H1.
  reflexivity.
Qed.

Lemma cancel_is_one_way_witness :
  exists pr',
    run (cancel_thread sample_replayer 1%N)
      [act_stat (op_inc_failed_count 3 20%N) "/data";
       act_member {| is_blocklisted := false |}
         (<["/home" := {| fd := 4; replayer := 1%N |}]>
            (m_registered sample_replayer))
         ["/data"; "/home"] (m_snap_sync_stats sample_replayer) false;
       act_cancel 2%N;
       act_stat op_reset_failed_count "/home"] = ok pr' /\
    SnapshotReplayerThread.is_canceled (threads pr' 1%N) = true /\
    should_backoff pr' "/data" = (ok (true, -125), trace_polled "/data" 1%N) /\
    should_backoff pr' "/home" = (ok (true, -125), trace_polled "/home" 1%N).
Proof.
  eexists. split; [reflexivity|].
  destruct (cancel_is_one_way sample_replayer 1%N
              [act_stat (op_inc_failed_count 3 20%N) "/data";
               act_member {| is_blocklisted := false |}
                 (<["/home" := {| fd := 4; replayer := 1%N |}]>
                    (m_registered sample_replayer))
                 ["/data"; "/home"] (m_snap_sync_stats sample_replayer) false;
               act_cancel 2%N;
               act_stat op_reset_failed_count "/home"] _ eq_refl)
    as (_ & Hc & Hpoll).
  split; [exact Hc|]. split.
  - apply (Hpoll "/data" {| fd := 3; replayer := 1%N |}); reflexivity.
  - apply (Hpoll "/home" {| fd := 4; replayer := 1%N |}); reflexivity.
Defined.

(** ** Snapshot maps in identifier order *)

#[global] Instance snap_le_total : Total snap_le.
Proof. intros a b. unfold snap_le. lia. Qed.

#[global] Instance snap_le_transitive : Transitive snap_le.
Proof. intros a b c. unfold snap_le. lia. Qed.

Lemma snap_map_entries_perm (m : gmap N string) :
  snap_map_entries m ≡ₚ map_to_list m.
Proof. apply merge_sort_Permutation. Qed.

Lemma snap_map_entries_elem (m : gmap N string) (id : N) (name : string) :
  (id, name) ∈ snap_map_entries m <-> m !! id = Some name.
Proof.
  rewrite (snap_map_entries_perm m). apply elem_of_map_to_list.
Qed.









(** ** The replay loop *)





Example replay_all_pending :
  sync_pass (fun _ _ => 0) 1 sample_local_snaps =
    {| synchronized := [2; 3; 4; 5]%N; last_synced_id := 5; pass_code := 0 |}.
Proof. vm_compute. reflexivity. Qed.

Example replay_stops_at_failure :
  sync_pass synchronize_fails_at_4 1 sample_local_snaps =
    {| synchronized := [2; 3; 4]%N; last_synced_id := 3; pass_code := -5 |}.
Proof. vm_compute. reflexivity. Qed.

(** The next pass retries the failed snapshot and goes on from there. *)
Example replay_retries_failed :
  sync_pass (fun _ _ => 0) 3 sample_local_snaps =
    {| synchronized := [4; 5]%N; last_synced_id := 5; pass_code := 0 |}.
Proof. vm_compute. reflexivity. Qed.





(** ** Deletions and renames *)

Lemma snaps_deleted_elem local remote name :
  name ∈ snaps_deleted local remote <->
  exists id : N, remote !! id = Some name /\ local !! id = None.
Proof.
  unfold snaps_deleted. rewrite elem_of_list_to_set, list_elem_of_omap.
  split.
  - intros ([id n] & Hin & Hd). apply snap_map_entries_elem in Hin.
    unfold deleted_name in Hd. simpl in Hd.
    destruct (local !! id) eqn:El; [discriminate Hd|].
    injection Hd as ->. exists id. split; assumption.
  - intros (id & Hr & Hl). exists (id, name). split.
    + apply snap_map_entries_elem. exact Hr.
    + unfold deleted_name. simpl. rewrite Hl. reflexivity.
Qed.

Lemma snaps_renamed_elem local remote old_name new_name :
  (old_name, new_name) ∈ snaps_renamed local remote <->
  exists id : N,
    remote !! id = Some old_name /\ local !! id = Some new_name /\
    old_name <> new_name.
Proof.
  unfold snaps_renamed. rewrite elem_of_list_to_set, list_elem_of_omap.
  split.
  - intros ([id n] & Hin & Hd). apply snap_map_entries_elem in Hin.
    unfold renamed_pair in Hd. simpl in Hd.
    destruct (local !! id) as [new|] eqn:El; [|discriminate Hd].
    destruct (decide (new = n)) as [E|Hne]; [discriminate Hd|].
    injection Hd as -> ->. exists id. repeat split; try assumption.
    congruence.
  - intros (id & Hr & Hl & Hne). exists (id, old_name). split.
    + apply snap_map_entries_elem. exact Hr.
    + unfold renamed_pair. simpl. rewrite Hl.
      destruct (decide (new_name = old_name)) as [E|_]; [congruence|].
      reflexivity.
Qed.

(** C6: the delete set holds the remote names whose identifier is absent
    from the local map, the rename set holds the pairs (remote name,
    local name) of identifiers present in both maps under different
    names; for local {1:"a",2:"b"} and remote {1:"a",2:"old_b"} the
    rename set is {("old_b","b")} and the delete set is empty, and for
    local {1:"a"} and remote {1:"a",2:"b"} the delete set is {"b"} (and
    nothing is renamed). *)
Theorem snapshot_diff_classification :
  (forall (local remote : gmap N string) (name : string),
     name ∈ snaps_deleted local remote <->
     exists id : N, remote !! id = Some name /\ local !! id = None) /\
  (forall (local remote : gmap N string) (old_name new_name : string),
     (old_name, new_name) ∈ snaps_renamed local remote <->
     exists id : N,
       remote !! id = Some old_name /\ local !! id = Some new_name /\
       old_name <> new_name) /\
  snaps_renamed (<[2%N := "b"]> (<[1%N := "a"]> ∅))
                (<[2%N := "old_b"]> (<[1%N := "a"]> ∅))
    = {[ ("old_b", "b") ]} /\
  snaps_deleted (<[2%N := "b"]> (<[1%N := "a"]> ∅))
                (<[2%N := "old_b"]> (<[1%N := "a"]> ∅))
    = ∅ /\
  snaps_deleted (<[1%N := "a"]> ∅) (<[2%N := "b"]> (<[1%N := "a"]> ∅))
    = {[ "b" ]} /\
  snaps_renamed (<[1%N := "a"]> ∅) (<[2%N := "b"]> (<[1%N := "a"]> ∅))
    = ∅.
Proof.
  split; [apply snaps_deleted_elem|].
  split; [apply snaps_renamed_elem|].
  repeat split; vm_compute; reflexivity.
Qed.

(** * Further properties of the inline code *)

(** ** Entries under a mutator *)

Lemma run_stat_op_entry op pr dir_path st :
  m_snap_sync_stats pr !! dir_path = Some st ->
  exists pr',
    run_stat_op op pr dir_path = ok pr' /\
    m_snap_sync_stats pr' !! dir_path = Some (stat_op_update op st) /\
    (forall other, other <> dir_path ->
       m_snap_sync_stats pr' !! other = m_snap_sync_stats pr !! other).
Proof.
  intros H. eexists. split; [apply run_stat_op_Some; exact H|].
  split; [apply with_stats_lookup|].
  intros other Hne. apply with_stats_lookup_ne. exact Hne.
Qed.

Lemma with_stats_insert_id pr dir_path st :
  m_snap_sync_stats pr !! dir_path = Some st ->
  with_stats pr (<[dir_path := st]> (m_snap_sync_stats pr)) = pr.
Proof.
  intros H. destruct pr. unfold with_stats. simpl in *.
  rewrite (insert_id _ _ _ H). reflexivity.
Qed.

Lemma reset_after_inc_failed_stat max_failures now st :
  reset_failed_stat (inc_failed_stat max_failures now st) = reset_failed_stat st.
Proof.
  unfold inc_failed_stat. simpl.
  destruct (max_failures <=? incr64 (nr_failures st))%N; reflexivity.
Qed.

Lemma reset_after_failures max_failures nows : forall st,
  reset_failed_stat
    (fold_left (fun s now => inc_failed_stat max_failures now s) nows st)
  = reset_failed_stat st.
Proof.
  induction nows as [|now rest IH]; intros st; simpl; [reflexivity|].
  rewrite IH. apply reset_after_inc_failed_stat.
Qed.

(** A run of failures on one directory is one write of its entry. *)
Lemma run_failure_actions max_failures dir_path nows : forall pr st,
  m_snap_sync_stats pr !! dir_path = Some st ->
  run pr (failure_actions max_failures dir_path nows) =
    ok (with_stats pr
          (<[dir_path :=
               fold_left (fun s now => inc_failed_stat max_failures now s)
                 nows st]> (m_snap_sync_stats pr))).
Proof.
  induction nows as [|now rest IH]; intros pr st H; simpl.
  - rewrite (with_stats_insert_id pr dir_path st H). reflexivity.
  - unfold _inc_failed_count. rewrite (update_sync_stat_Some _ _ _ _ H).
    simpl. rewrite (IH _ (inc_failed_stat max_failures now st)
                      (with_stats_lookup pr dir_path _)).
    unfold with_stats. simpl. rewrite insert_insert_eq. reflexivity.
Qed.

(** ** Failure bookkeeping over several calls *)

(** X1: however many failures were recorded on a directory, one
    [_reset_failed_count] leaves the replayer in the state that resetting
    straight away would have given: the counter is 0, the flag and the
    timestamp are cleared, and the failures leave no other trace. *)
Theorem reset_absorbs_failures (max_failures : N) (dir_path : string)
    (nows : list time) (pr : PeerReplayer) (st : SnapSyncStat) :
  m_snap_sync_stats pr !! dir_path = Some st ->
  exists pr1 pr2 st2,
    run pr (failure_actions max_failures dir_path nows) = ok pr1 /\
    _reset_failed_count pr1 dir_path = ok pr2 /\
    _reset_failed_count pr dir_path = ok pr2 /\
    m_snap_sync_stats pr2 !! dir_path = Some st2 /\
    nr_failures st2 = 0%N /\ failed st2 = false /\ last_failed st2 = None /\
    last_synced_snap st2 = last_synced_snap st /\
    current_syncing_snap st2 = current_syncing_snap st /\
    synced_snap_count st2 = synced_snap_count st /\
    deleted_snap_count st2 = deleted_snap_count st /\
    renamed_snap_count st2 = renamed_snap_count st /\
    last_synced st2 = last_synced st /\
    last_sync_duration st2 = last_sync_duration st.
Proof.
  intros H.
  eexists. exists (with_stats pr (<[dir_path := reset_failed_stat st]>
                                   (m_snap_sync_stats pr))).
  exists (reset_failed_stat st).
  split; [apply (run_failure_actions _ _ _ _ _ H)|].
  split.
  - unfold _reset_failed_count.
    rewrite (update_sync_stat_Some _ _ _ _ (with_stats_lookup pr dir_path _)).
    unfold with_stats. simpl.
    rewrite insert_insert_eq, reset_after_failures. reflexivity.
  - split; [apply update_sync_stat_Some; exact H|].
    split; [apply with_stats_lookup|]. repeat split.
Qed.

Lemma reset_absorbs_failures_witness :
  m_snap_sync_stats sample_replayer !! "/data" = Some SnapSyncStat_init /\
  exists pr1 pr2,
    run sample_replayer (failure_actions 3 "/data" [11; 12; 13; 14]%N) = ok pr1 /\
    _reset_failed_count pr1 "/data" = ok pr2 /\
    _reset_failed_count sample_replayer "/data" = ok pr2.
Proof.
  split; [reflexivity|].
  destruct (reset_absorbs_failures 3 "/data" [11; 12; 13; 14]%N
              sample_replayer SnapSyncStat_init eq_refl)
    as (pr1 & pr2 & st2 & H1 & H2 & H3 & _).
  exists pr1, pr2. split; [exact H1|]. split; [exact H2|exact H3].
Defined.

Lemma failures_fold max_failures nows : forall st,
  (nr_failures st + N.of_nat (length nows) < uint64_modulus)%N ->
  let st' := fold_left (fun s now => inc_failed_stat max_failures now s) nows st in
  nr_failures st' = (nr_failures st + N.of_nat (length nows))%N /\
  failed st' =
    (failed st ||
     ((0 <? N.of_nat (length nows)) &&
      (max_failures <=? nr_failures st + N.of_nat (length nows))))%N /\
  last_failed st' = from_option Some (last_failed st) (last nows).
Proof.
  induction nows as [|now rest IH]; intros st Hlt.
  - simpl. rewrite N.add_0_r, orb_false_r. repeat split.
  - cbn [fold_left]. cbn [length] in Hlt. rewrite Nat2N.inj_succ in Hlt.
    assert (Hn : nr_failures (inc_failed_stat max_failures now st)
                 = (nr_failures st + 1)%N).
    { rewrite inc_failed_stat_nr_failures. apply incr64_no_overflow.
      unfold UINT64_MAX. lia. }
    specialize (IH (inc_failed_stat max_failures now st)).
    rewrite Hn in IH. destruct IH as (IHn & IHf & IHl); [lia|].
    cbn zeta. rewrite IHn, IHf, IHl. cbn [length]. rewrite Nat2N.inj_succ.
    split; [lia|]. split.
    + rewrite inc_failed_stat_failed, incr64_no_overflow
        by (unfold UINT64_MAX; lia).
      destruct (failed st); simpl.
      { destruct (max_failures <=? nr_failures st + 1)%N; reflexivity. }
      destruct (N.leb_spec max_failures (nr_failures st + 1));
        destruct (N.ltb_spec 0 (N.of_nat (length rest)));
        destruct (N.ltb_spec 0 (N.succ (N.of_nat (length rest))));
        destruct (N.leb_spec max_failures
                    (nr_failures st + 1 + N.of_nat (length rest)));
        destruct (N.leb_spec max_failures
                    (nr_failures st + N.succ (N.of_nat (length rest))));
        simpl; try reflexivity; lia.
    + rewrite inc_failed_stat_last_failed, last_cons.
      destruct (last rest); reflexivity.
Qed.

(** X2: after [n] calls of [_inc_failed_count] in a row under one cap
    (the counter staying within [uint64_t]), the counter has grown by
    [n], [last_failed] is the time of the last call, and [failed] is set
    exactly when it was set before or at least one call was made and the
    counter has reached the cap: the flag never falls back on a
    failure. *)
Theorem failures_accumulate (max_failures : N) (dir_path : string)
    (nows : list time) (pr : PeerReplayer) (st : SnapSyncStat) :
  m_snap_sync_stats pr !! dir_path = Some st ->
  (nr_failures st + N.of_nat (length nows) < uint64_modulus)%N ->
  exists pr' st',
    run pr (failure_actions max_failures dir_path nows) = ok pr' /\
    m_snap_sync_stats pr' !! dir_path = Some st' /\
    nr_failures st' = (nr_failures st + N.of_nat (length nows))%N /\
    failed st' =
      (failed st ||
       ((0 <? N.of_nat (length nows)) &&
        (max_failures <=? nr_failures st + N.of_nat (length nows))))%N /\
    last_failed st' = from_option Some (last_failed st) (last nows).
Proof.
  intros H Hlt. eexists. eexists.
  split; [apply (run_failure_actions _ _ _ _ _ H)|].
  split; [apply with_stats_lookup|].
  apply failures_fold. exact Hlt.
Qed.

Lemma failures_accumulate_witness :
  m_snap_sync_stats sample_replayer !! "/data" = Some SnapSyncStat_init /\
  (nr_failures SnapSyncStat_init + N.of_nat (length [11; 12]%N)
   < uint64_modulus)%N /\
  exists pr' st',
    run sample_replayer (failure_actions 3 "/data" [11; 12]%N) = ok pr' /\
    m_snap_sync_stats pr' !! "/data" = Some st' /\
    nr_failures st' = 2%N /\ failed st' = false /\ last_failed st' = Some 12%N.
Proof.
  split; [reflexivity|]. split; [reflexivity|].
  destruct (failures_accumulate 3 "/data" [11; 12]%N sample_replayer
              SnapSyncStat_init eq_refl eq_refl)
    as (pr' & st' & Hrun & Hl & Hn & Hf & Ht).
  exists pr', st'. repeat split; assumption.
Defined.

(** X3: at the top of [uint64_t] the counter wraps: a failure recorded on
    an entry whose counter is [UINT64_MAX] leaves [nr_failures = 0], and
    under a cap above 0 that call does not set [failed], which keeps the
    value it had. *)
Theorem inc_failed_count_wraps (max_failures : N) (now : time)
    (pr : PeerReplayer) (dir_path : string) (st : SnapSyncStat) :
  m_snap_sync_stats pr !! dir_path = Some st ->
  nr_failures st = UINT64_MAX ->
  (0 < max_failures)%N ->
  exists pr' st',
    _inc_failed_count max_failures now pr dir_path = ok pr' /\
    m_snap_sync_stats pr' !! dir_path = Some st' /\
    nr_failures st' = 0%N /\
    failed st' = failed st /\
    last_failed st' = Some now.
Proof.
  intros H Hmax Hcap.
  destruct (inc_failed_count_Some max_failures now pr dir_path st H)
    as (pr' & Hrun & Hl).
  exists pr', (inc_failed_stat max_failures now st).
  split; [exact Hrun|]. split; [exact Hl|].
  rewrite inc_failed_stat_nr_failures, inc_failed_stat_failed,
    inc_failed_stat_last_failed, Hmax, incr64_overflow.
  apply N.leb_gt in Hcap. rewrite Hcap. repeat split.
Qed.

Lemma inc_failed_count_wraps_witness :
  m_snap_sync_stats saturated_replayer !! "/data" = Some saturated_stat /\
  nr_failures saturated_stat = UINT64_MAX /\ (0 < 3)%N /\
  exists pr' st',
    _inc_failed_count 3 50%N saturated_replayer "/data" = ok pr' /\
    m_snap_sync_stats pr' !! "/data" = Some st' /\
    nr_failures st' = 0%N /\ failed st' = failed saturated_stat /\
    last_failed st' = Some 50%N.
Proof.
  split; [reflexivity|]. split; [reflexivity|]. split; [reflexivity|].
  apply (inc_failed_count_wraps 3 50%N saturated_replayer "/data"
           saturated_stat); reflexivity.
Defined.

(** ** Invariants of the table *)

Lemma stat_op_update_stamp op st :
  failure_stamp_consistent st -> failure_stamp_consistent (stat_op_update op st).
Proof.
  unfold failure_stamp_consistent. intros I.
  destruct op; simpl; try exact I.
  - rewrite inc_failed_stat_last_failed. intros H. discriminate H.
  - intros _. split; reflexivity.
Qed.

Lemma run_stat_actions_inv (P : SnapSyncStat -> Prop) :
  (forall op st, P st -> P (stat_op_update op st)) ->
  forall ops pr pr',
    (forall d st, m_snap_sync_stats pr !! d = Some st -> P st) ->
    run pr (stat_actions ops) = ok pr' ->
    forall d st, m_snap_sync_stats pr' !! d = Some st -> P st.
Proof.
  intros Hstep. induction ops as [|[op d0] rest IH]; intros pr pr' HP Hrun;
    simpl in Hrun.
  - unfold ok in Hrun. injection Hrun as <-. exact HP.
  - destruct (run_stat_op op pr d0) as [e|pr1] eqn:E; simpl in Hrun;
      [unfold ok in Hrun; discriminate Hrun|].
    apply run_stat_op_ok_inv in E as (st0 & H0 & ->).
    refine (IH _ pr' _ Hrun).
    intros d st Hl. simpl in Hl.
    destruct (decide (d0 = d)) as [->|Hne].
    + rewrite lookup_insert_eq in Hl. injection Hl as <-.
      apply Hstep, (HP d st0 H0).
    + rewrite lookup_insert_ne in Hl by exact Hne. apply (HP d st Hl).
Qed.

(** X4: under one cap above 0, every mutator keeps [failed] equal to
    "the counter has reached the cap" on the entry it writes, as long as
    the counter is not at the top of [uint64_t]. *)
Theorem quarantine_flag_tracks_cap (cap : N) (op : StatOp)
    (pr : PeerReplayer) (dir_path : string) (st : SnapSyncStat) :
  m_snap_sync_stats pr !! dir_path = Some st ->
  (0 < cap)%N ->
  uses_cap cap op ->
  (nr_failures st < UINT64_MAX)%N ->
  quarantine_consistent cap st ->
  exists pr' st',
    run_stat_op op pr dir_path = ok pr' /\
    m_snap_sync_stats pr' !! dir_path = Some st' /\
    quarantine_consistent cap st'.
Proof.
  intros H Hcap Huse Hmax I.
  destruct (run_stat_op_entry op pr dir_path st H) as (pr' & Hrun & Hl & _).
  exists pr', (stat_op_update op st). split; [exact Hrun|].
  split; [exact Hl|].
  unfold quarantine_consistent in *.
  destruct op; simpl in *; try exact I.
  - subst max_failures.
    rewrite inc_failed_stat_failed, inc_failed_stat_nr_failures,
      (incr64_no_overflow _ Hmax), I.
    destruct (N.leb_spec cap (nr_failures st + 1));
      destruct (N.leb_spec cap (nr_failures st)); try reflexivity; lia.
  - symmetry. apply N.leb_gt. exact Hcap.
Qed.

Lemma quarantine_flag_tracks_cap_witness :
  m_snap_sync_stats quarantined_replayer !! "/data" = Some quarantined_stat /\
  (0 < 3)%N /\ uses_cap 3 (op_inc_failed_count 3 60%N) /\
  (nr_failures quarantined_stat < UINT64_MAX)%N /\
  quarantine_consistent 3 quarantined_stat /\
  exists pr' st',
    run_stat_op (op_inc_failed_count 3 60%N) quarantined_replayer "/data"
      = ok pr' /\
    m_snap_sync_stats pr' !! "/data" = Some st' /\
    quarantine_consistent 3 st'.
Proof.
  split; [reflexivity|]. split; [reflexivity|]. split; [reflexivity|].
  split; [reflexivity|]. split; [reflexivity|].
  apply (quarantine_flag_tracks_cap 3 (op_inc_failed_count 3 60%N)
           quarantined_replayer "/data" quarantined_stat); reflexivity.
Defined.

(** X5: over any sequence of statistics mutators on any directories, an
    entry without a [last_failed] timestamp has a failure counter of 0
    and is not marked failed; this holds of every entry once it holds of
    the table the sequence starts from, as it does of freshly
    initialised entries. *)
Theorem failure_stamp_invariant (ops : list (StatOp * string))
    (pr pr' : PeerReplayer) :
  (forall d st, m_snap_sync_stats pr !! d = Some st ->
     failure_stamp_consistent st) ->
  run pr (stat_actions ops) = ok pr' ->
  failure_stamp_consistent SnapSyncStat_init /\
  (forall d st, m_snap_sync_stats pr' !! d = Some st ->
     failure_stamp_consistent st).
Proof.
  intros HP Hrun. split.
  - intros _. split; reflexivity.
  - apply (run_stat_actions_inv failure_stamp_consistent
             stat_op_update_stamp ops pr pr' HP Hrun).
Qed.

Lemma sample_replayer_stamps (d : string) (st : SnapSyncStat) :
  m_snap_sync_stats sample_replayer !! d = Some st ->
  failure_stamp_consistent st.
Proof.
  unfold sample_replayer. simpl. intros H.
  apply lookup_insert_Some in H as [[_ <-]|[_ H]];
    [intros _; split; reflexivity|].
  apply lookup_insert_Some in H as [[_ <-]|[_ H]];
    [intros _; split; reflexivity|].
  rewrite lookup_empty in H. discriminate H.
Qed.

Lemma failure_stamp_invariant_witness :
  exists pr',
    run sample_replayer
      (stat_actions [(op_inc_failed_count 3 11%N, "/data");
                     (op_inc_deleted_snap, "/home");
                     (op_reset_failed_count, "/data");
                     (op_inc_failed_count 1 12%N, "/home")]) = ok pr' /\
    (forall d st, m_snap_sync_stats pr' !! d = Some st ->
       failure_stamp_consistent st).
Proof.
  eexists. split; [reflexivity|].
  apply (failure_stamp_invariant
           [(op_inc_failed_count 3 11%N, "/data");
            (op_inc_deleted_snap, "/home");
            (op_reset_failed_count, "/data");
            (op_inc_failed_count 1 12%N, "/home")]
           sample_replayer _ sample_replayer_stamps eq_refl).
Defined.

(** X6: the failure fields and the snapshot fields are written by
    disjoint mutators.  [_inc_failed_count] and [_reset_failed_count]
    leave the last-synced and currently-syncing snapshots, the three
    counts, the last-synced time and the duration as they are; the six
    other mutators leave [nr_failures], [failed] and [last_failed] as
    they are. *)
Theorem failure_and_snapshot_fields_disjoint (op : StatOp)
    (pr : PeerReplayer) (dir_path : string) (st : SnapSyncStat) :
  m_snap_sync_stats pr !! dir_path = Some st ->
  exists pr' st',
    run_stat_op op pr dir_path = ok pr' /\
    m_snap_sync_stats pr' !! dir_path = Some st' /\
    (touches_failure_state op = true ->
       last_synced_snap st' = last_synced_snap st /\
       current_syncing_snap st' = current_syncing_snap st /\
       synced_snap_count st' = synced_snap_count st /\
       deleted_snap_count st' = deleted_snap_count st /\
       renamed_snap_count st' = renamed_snap_count st /\
       last_synced st' = last_synced st /\
       last_sync_duration st' = last_sync_duration st) /\
    (touches_failure_state op = false ->
       nr_failures st' = nr_failures st /\
       failed st' = failed st /\
       last_failed st' = last_failed st).
Proof.
  intros H.
  destruct (run_stat_op_entry op pr dir_path st H) as (pr' & Hrun & Hl & _).
  exists pr', (stat_op_update op st). split; [exact Hrun|].
  split; [exact Hl|].
  destruct op; simpl; split; intros Ht; try discriminate Ht;
    try (repeat split; fail).
  unfold inc_failed_stat. simpl.
  destruct (max_failures <=? incr64 (nr_failures st))%N; repeat split.
Qed.

Lemma failure_and_snapshot_fields_disjoint_witness :
  m_snap_sync_stats quarantined_replayer !! "/data" = Some quarantined_stat /\
  exists pr' st',
    run_stat_op op_inc_renamed_snap quarantined_replayer "/data" = ok pr' /\
    m_snap_sync_stats pr' !! "/data" = Some st' /\
    nr_failures st' = 3%N /\ failed st' = true /\ last_failed st' = Some 40%N.
Proof.
  split; [reflexivity|].
  destruct (failure_and_snapshot_fields_disjoint op_inc_renamed_snap
              quarantined_replayer "/data" quarantined_stat eq_refl)
    as (pr' & st' & Hrun & Hl & _ & Hkeep).
  exists pr', st'. split; [exact Hrun|]. split; [exact Hl|].
  destruct (Hkeep eq_refl) as (Hn & Hf & Ht).
  rewrite Hn, Hf, Ht. repeat split.
Defined.

(** ** Counting *)

Lemma wrap64_incr64_add (c k : N) :
  wrap64 (incr64 c + k) = wrap64 (c + (1 + k)).
Proof.
  unfold incr64, wrap64. rewrite N.Div0.add_mod_idemp_l. f_equal. lia.
Qed.

Lemma incr64_in_range (c : N) : (incr64 c < uint64_modulus)%N.
Proof. unfold incr64, wrap64. apply N.mod_lt. discriminate. Qed.

Lemma stat_op_update_counts op st :
  synced_snap_count (stat_op_update op st) =
    (if is_set_last_synced_stat op then incr64 (synced_snap_count st)
     else synced_snap_count st) /\
  deleted_snap_count (stat_op_update op st) =
    (if is_inc_deleted_snap op then incr64 (deleted_snap_count st)
     else deleted_snap_count st) /\
  renamed_snap_count (stat_op_update op st) =
    (if is_inc_renamed_snap op then incr64 (renamed_snap_count st)
     else renamed_snap_count st).
Proof.
  destruct op; simpl; repeat split.
  all: unfold inc_failed_stat; simpl;
    destruct (max_failures <=? incr64 (nr_failures st))%N; reflexivity.
Qed.

Lemma stat_op_update_in_range op st :
  stat_in_range st -> stat_in_range (stat_op_update op st).
Proof.
  unfold stat_in_range. intros (Hn & Hs & Hd & Hr).
  destruct (stat_op_update_counts op st) as (Es & Ed & Er).
  rewrite Es, Ed, Er. split.
  - destruct op; simpl; try exact Hn.
    + rewrite inc_failed_stat_nr_failures. apply incr64_in_range.
    + reflexivity.
  - destruct (is_set_last_synced_stat op), (is_inc_deleted_snap op),
      (is_inc_renamed_snap op);
      repeat split; try assumption; apply incr64_in_range.
Qed.

Lemma count_step (sel : StatOp -> bool) (op : StatOp) (c k : N) :
  wrap64 ((if sel op then incr64 c else c) + k) =
  wrap64 (c + ((if sel op && true then 1 else 0) + k)).
Proof.
  destruct (sel op); simpl.
  - apply wrap64_incr64_add.
  - reflexivity.
Qed.

Lemma run_stat_actions_counts dir_path ops : forall pr pr' st,
  m_snap_sync_stats pr !! dir_path = Some st ->
  stat_in_range st ->
  run pr (stat_actions ops) = ok pr' ->
  exists st',
    m_snap_sync_stats pr' !! dir_path = Some st' /\
    synced_snap_count st' =
      wrap64 (synced_snap_count st
              + count_on is_set_last_synced_stat dir_path ops) /\
    deleted_snap_count st' =
      wrap64 (deleted_snap_count st
              + count_on is_inc_deleted_snap dir_path ops) /\
    renamed_snap_count st' =
      wrap64 (renamed_snap_count st
              + count_on is_inc_renamed_snap dir_path ops).
Proof.
  induction ops as [|[op d0] rest IH]; intros pr pr' st H Hrange Hrun;
    simpl in Hrun.
  - unfold ok in Hrun. injection Hrun as <-. exists st.
    split; [exact H|]. destruct Hrange as (_ & Hs & Hd & Hr).
    simpl. rewrite !N.add_0_r. unfold wrap64.
    rewrite !N.mod_small by assumption. repeat split.
  - destruct (run_stat_op op pr d0) as [e|pr1] eqn:E; simpl in Hrun;
      [unfold ok in Hrun; discriminate Hrun|].
    apply run_stat_op_ok_inv in E as (st0 & H0 & ->).
    destruct (decide (d0 = dir_path)) as [->|Hne].
    + rewrite H in H0. injection H0 as <-.
      destruct (IH _ pr' (stat_op_update op st)
                  (with_stats_lookup pr dir_path _)
                  (stat_op_update_in_range op st Hrange) Hrun)
        as (st' & Hl & Es & Ed & Er).
      exists st'. split; [exact Hl|].
      destruct (stat_op_update_counts op st) as (Cs & Cd & Cr).
      rewrite Es, Ed, Er, Cs, Cd, Cr. cbn [count_on].
      rewrite bool_decide_eq_true_2 by reflexivity.
      repeat split; apply count_step.
    + assert (Hl1 : m_snap_sync_stats
                      (with_stats pr (<[d0 := stat_op_update op st0]>
                                        (m_snap_sync_stats pr)))
                      !! dir_path = Some st)
        by (rewrite with_stats_lookup_ne by congruence; exact H).
      destruct (IH _ pr' st Hl1 Hrange Hrun) as (st' & Hl & Es & Ed & Er).
      exists st'. split; [exact Hl|].
      rewrite Es, Ed, Er. cbn [count_on].
      rewrite bool_decide_eq_false_2 by exact Hne.
      rewrite !andb_false_r. repeat split.
Qed.

(** X7: over any sequence of statistics mutators that runs through, the
    three snapshot counts of a directory grow by the number of
    [set_last_synced_stat], [inc_deleted_snap] and [inc_renamed_snap]
    calls made on that directory (modulo 2^64); calls on other
    directories and the other mutators do not count. *)
Theorem snapshot_counts_add_up (dir_path : string)
    (ops : list (StatOp * string)) (pr pr' : PeerReplayer)
    (st : SnapSyncStat) :
  m_snap_sync_stats pr !! dir_path = Some st ->
  stat_in_range st ->
  run pr (stat_actions ops) = ok pr' ->
  exists st',
    m_snap_sync_stats pr' !! dir_path = Some st' /\
    synced_snap_count st' =
      wrap64 (synced_snap_count st
              + count_on is_set_last_synced_stat dir_path ops) /\
    deleted_snap_count st' =
      wrap64 (deleted_snap_count st
              + count_on is_inc_deleted_snap dir_path ops) /\
    renamed_snap_count st' =
      wrap64 (renamed_snap_count st
              + count_on is_inc_renamed_snap dir_path ops).
Proof. apply run_stat_actions_counts. Qed.

Lemma snapshot_counts_add_up_witness :
  exists pr' st',
    run sample_replayer
      (stat_actions [(op_inc_deleted_snap, "/data");
                     (op_set_last_synced_stat 20%N 1%N "s1" PrimFloat.one, "/data");
                     (op_inc_deleted_snap, "/home");
                     (op_inc_failed_count 3 21%N, "/data");
                     (op_inc_deleted_snap, "/data")]) = ok pr' /\
    m_snap_sync_stats pr' !! "/data" = Some st' /\
    synced_snap_count st' = 1%N /\
    deleted_snap_count st' = 2%N /\
    renamed_snap_count st' = 0%N.
Proof.
  eexists.
  destruct (snapshot_counts_add_up "/data"
              [(op_inc_deleted_snap, "/data");
               (op_set_last_synced_stat 20%N 1%N "s1" PrimFloat.one, "/data");
               (op_inc_deleted_snap, "/home");
               (op_inc_failed_count 3 21%N, "/data");
               (op_inc_deleted_snap, "/data")]
              sample_replayer _ SnapSyncStat_init eq_refl
              ltac:(repeat split) eq_refl)
    as (st' & Hl & Hs & Hd & Hr).
  exists st'. split; [reflexivity|]. split; [exact Hl|].
  split; [exact Hs|]. split; [exact Hd|exact Hr].
Defined.

(** ** Independence *)

(** X8: mutators called on two different directories commute: both
    orders run through and give the same replayer. *)
Theorem stat_ops_commute (op1 op2 : StatOp) (pr : PeerReplayer)
    (d1 d2 : string) (st1 st2 : SnapSyncStat) :
  d1 <> d2 ->
  m_snap_sync_stats pr !! d1 = Some st1 ->
  m_snap_sync_stats pr !! d2 = Some st2 ->
  exists pr',
    run pr (stat_actions [(op1, d1); (op2, d2)]) = ok pr' /\
    run pr (stat_actions [(op2, d2); (op1, d1)]) = ok pr' /\
    m_snap_sync_stats pr' !! d1 = Some (stat_op_update op1 st1) /\
    m_snap_sync_stats pr' !! d2 = Some (stat_op_update op2 st2).
Proof.
  intros Hne H1 H2.
  exists (with_stats pr
            (<[d2 := stat_op_update op2 st2]>
               (<[d1 := stat_op_update op1 st1]> (m_snap_sync_stats pr)))).
  split; [|split; [|split]].
  - simpl. rewrite (run_stat_op_Some op1 pr d1 st1 H1). simpl.
    rewrite (run_stat_op_Some op2 _ d2 st2)
      by (rewrite with_stats_lookup_ne by congruence; exact H2).
    reflexivity.
  - simpl. rewrite (run_stat_op_Some op2 pr d2 st2 H2). simpl.
    rewrite (run_stat_op_Some op1 _ d1 st1)
      by (rewrite with_stats_lookup_ne by congruence; exact H1).
    simpl. unfold with_stats. simpl.
    rewrite (insert_insert_ne (m_snap_sync_stats pr) d1 d2) by exact Hne.
    reflexivity.
  - simpl. rewrite lookup_insert_ne by congruence. apply lookup_insert_eq.
  - simpl. apply lookup_insert_eq.
Qed.

Lemma stat_ops_commute_witness :
  "/data" <> "/home" /\
  exists pr',
    run sample_replayer
      (stat_actions [(op_inc_failed_count 3 11%N, "/data");
                     (op_inc_renamed_snap, "/home")]) = ok pr' /\
    run sample_replayer
      (stat_actions [(op_inc_renamed_snap, "/home");
                     (op_inc_failed_count 3 11%N, "/data")]) = ok pr'.
Proof.
  split; [discriminate|].
  destruct (stat_ops_commute (op_inc_failed_count 3 11%N) op_inc_renamed_snap
              sample_replayer "/data" "/home" SnapSyncStat_init
              SnapSyncStat_init ltac:(discriminate) eq_refl eq_refl)
    as (pr' & Ha & Hb & _).
  exists pr'. split; [exact Ha|exact Hb].
Defined.

(** [should_backoff] reads the blocklist oracle, the stopping flag, the
    registry entry of the path and the flag of the thread it points to. *)
Lemma should_backoff_reads pr1 pr2 dir_path :
  m_fs_mirror pr1 = m_fs_mirror pr2 ->
  m_stopping pr1 = m_stopping pr2 ->
  m_registered pr1 !! dir_path = m_registered pr2 !! dir_path ->
  (forall dr, m_registered pr2 !! dir_path = Some dr ->
     threads pr1 (replayer dr) = threads pr2 (replayer dr)) ->
  should_backoff pr1 dir_path = should_backoff pr2 dir_path.
Proof.
  intros Hfs Hs Hr Ht. unfold should_backoff, is_stopping, map_at.
  rewrite Hfs, Hs, Hr.
  destruct (m_registered pr2 !! dir_path) as [dr|] eqn:E; [|reflexivity].
  destruct (is_blocklisted (m_fs_mirror pr2)); [reflexivity|].
  destruct (m_stopping pr2); [reflexivity|].
  simpl. rewrite (Ht dr eq_refl). reflexivity.
Qed.

Lemma run_stat_actions_frame ops : forall pr pr',
  run pr (stat_actions ops) = ok pr' ->
  m_fs_mirror pr' = m_fs_mirror pr /\
  m_stopping pr' = m_stopping pr /\
  m_registered pr' = m_registered pr /\
  m_directories pr' = m_directories pr /\
  threads pr' = threads pr /\
  dom (m_snap_sync_stats pr') = dom (m_snap_sync_stats pr).
Proof.
  induction ops as [|[op d0] rest IH]; intros pr pr' Hrun; simpl in Hrun.
  - unfold ok in Hrun. injection Hrun as <-. repeat split.
  - destruct (run_stat_op op pr d0) as [e|pr1] eqn:E; simpl in Hrun;
      [unfold ok in Hrun; discriminate Hrun|].
    apply run_stat_op_ok_inv in E as (st0 & H0 & ->).
    destruct (IH _ pr' Hrun) as (H1 & H2 & H3 & H4 & H5 & H6).
    simpl in *. rewrite H1, H2, H3, H4, H5, H6. repeat split.
    rewrite dom_insert_L.
    apply subseteq_union_1_L, singleton_subseteq_l, elem_of_dom.
    exists st0. exact H0.
Qed.

(** X9: no sequence of statistics mutators changes what [should_backoff]
    answers, for any directory: the answer does not depend on the
    statistics table, so an entry marked [failed] does not by itself make
    [should_backoff] return true. *)
Theorem stats_do_not_affect_backoff (ops : list (StatOp * string))
    (pr pr' : PeerReplayer) (dir_path : string) :
  run pr (stat_actions ops) = ok pr' ->
  should_backoff pr' dir_path = should_backoff pr dir_path.
Proof.
  intros Hrun.
  destruct (run_stat_actions_frame ops pr pr' Hrun)
    as (H1 & H2 & H3 & _ & H5 & _).
  apply should_backoff_reads; try assumption.
  - rewrite H3. reflexivity.
  - intros dr _. rewrite H5. reflexivity.
Qed.

Lemma stats_do_not_affect_backoff_witness :
  exists pr' st',
    run sample_replayer (stat_actions [(op_inc_failed_count 1 11%N, "/data")])
      = ok pr' /\
    m_snap_sync_stats pr' !! "/data" = Some st' /\
    failed st' = true /\
    should_backoff pr' "/data" = should_backoff sample_replayer "/data" /\
    outcome (should_backoff pr' "/data") = ok (false, 0).
Proof.
  eexists. eexists. split; [reflexivity|].
  split; [reflexivity|]. split; [reflexivity|].
  split; [|reflexivity].
  apply (stats_do_not_affect_backoff
           [(op_inc_failed_count 1 11%N, "/data")] sample_replayer).
  reflexivity.
Defined.

(** X10: [cancel()] on one thread changes [should_backoff] only for the
    directories whose registry entry points to that thread; for a path
    registered to another thread, or not registered, the answer (and the
    exception) is as before, and the registry, the directory list and the
    statistics are untouched. *)
Theorem cancel_affects_own_directories_only (pr : PeerReplayer)
    (th : thread_ptr) (dir_path : string) :
  (forall dr, m_registered pr !! dir_path = Some dr -> replayer dr <> th) ->
  should_backoff (cancel_thread pr th) dir_path = should_backoff pr dir_path /\
  m_registered (cancel_thread pr th) = m_registered pr /\
  m_directories (cancel_thread pr th) = m_directories pr /\
  m_snap_sync_stats (cancel_thread pr th) = m_snap_sync_stats pr /\
  (forall other, other <> th ->
     threads (cancel_thread pr th) other = threads pr other).
Proof.
  intros Hother. split; [|repeat split].
  - apply should_backoff_reads; try reflexivity.
    intros dr Hr. simpl.
    destruct (N.eqb_spec (replayer dr) th) as [E|_]; [|reflexivity].
    destruct (Hother dr Hr E).
  - intros other Hne. simpl.
    destruct (N.eqb_spec other th) as [E|_]; [destruct (Hne E)|reflexivity].
Qed.

Lemma cancel_affects_own_directories_only_witness :
  should_backoff (cancel_thread sample_replayer 2%N) "/data" =
    should_backoff sample_replayer "/data" /\
  should_backoff (cancel_thread sample_replayer 2%N) "/unregistered" =
    should_backoff sample_replayer "/unregistered".
Proof.
  split.
  - apply (cancel_affects_own_directories_only sample_replayer 2%N "/data").
    intros dr H. injection H as <-. discriminate.
  - apply (cancel_affects_own_directories_only sample_replayer 2%N
             "/unregistered").
    intros dr H. discriminate H.
Defined.

(** ** Locking *)

(** X11: on every path through [should_backoff], the exception path
    included, [m_lock] is never taken while held, is released before the
    call ends, and is held whenever [m_stopping], the registry or a
    thread's flag is read; the blocklisted path never takes it. *)
Theorem should_backoff_lock_discipline (pr : PeerReplayer)
    (dir_path : string) :
  lock_discipline false (trace (should_backoff pr dir_path)) = Some false /\
  (is_blocklisted (m_fs_mirror pr) = true ->
   ev_lock ∉ trace (should_backoff pr dir_path)).
Proof.
  destruct (should_backoff_cases pr dir_path)
    as [(Hb & E) | [(Hb & Hs & E) | [(Hb & Hs & Hr & E) | (dr & Hb & Hs & Hr & E)]]];
    rewrite E; unfold trace; simpl; rewrite Hb.
  - split; [reflexivity|].
    intros _ Hin. apply list_elem_of_singleton in Hin. discriminate Hin.
  - split; [reflexivity|intros H; discriminate H].
  - split; [reflexivity|intros H; discriminate H].
  - split; [reflexivity|intros H; discriminate H].
Qed.

(** ** Overwriting *)

Lemma with_stats_twice pr dir_path st1 st2 :
  with_stats
    (with_stats pr (<[dir_path := st1]> (m_snap_sync_stats pr)))
    (<[dir_path := st2]>
       (m_snap_sync_stats
          (with_stats pr (<[dir_path := st1]> (m_snap_sync_stats pr)))))
  = with_stats pr (<[dir_path := st2]> (m_snap_sync_stats pr)).
Proof. unfold with_stats. simpl. rewrite insert_insert_eq. reflexivity. Qed.

(** Two mutators in a row on one directory are one write of the composed
    update. *)
Lemma run_stat_op_twice op1 op2 pr dir_path st :
  m_snap_sync_stats pr !! dir_path = Some st ->
  exists pr1,
    run_stat_op op1 pr dir_path = ok pr1 /\
    run_stat_op op2 pr1 dir_path =
      ok (with_stats pr
            (<[dir_path := stat_op_update op2 (stat_op_update op1 st)]>
               (m_snap_sync_stats pr))).
Proof.
  intros H. eexists. split; [apply run_stat_op_Some; exact H|].
  rewrite (run_stat_op_Some op2 _ dir_path _ (with_stats_lookup pr dir_path _)).
  rewrite with_stats_twice. reflexivity.
Qed.

(** X12: the currently-syncing marker leaves no trace once the snapshot
    is settled: after [set_current_syncing_snap], each of
    [clear_current_syncing_snap], [set_last_synced_snap] and
    [set_last_synced_stat] gives the very replayer it would have given
    without the marker having been set, with [current_syncing_snap]
    empty. *)
Theorem current_syncing_marker_is_transient (pr : PeerReplayer)
    (dir_path : string) (st : SnapSyncStat)
    (cur_id : N) (cur_name : string)
    (now : time) (snap_id : N) (snap_name : string) (duration : double) :
  m_snap_sync_stats pr !! dir_path = Some st ->
  exists pr1 st1,
    set_current_syncing_snap pr dir_path cur_id cur_name = ok pr1 /\
    m_snap_sync_stats pr1 !! dir_path = Some st1 /\
    current_syncing_snap st1 = Some (cur_id, cur_name) /\
    clear_current_syncing_snap pr1 dir_path =
      clear_current_syncing_snap pr dir_path /\
    set_last_synced_snap pr1 dir_path snap_id snap_name =
      set_last_synced_snap pr dir_path snap_id snap_name /\
    set_last_synced_stat now pr1 dir_path snap_id snap_name duration =
      set_last_synced_stat now pr dir_path snap_id snap_name duration /\
    (forall pr2 st2,
       set_last_synced_stat now pr1 dir_path snap_id snap_name duration
         = ok pr2 ->
       m_snap_sync_stats pr2 !! dir_path = Some st2 ->
       current_syncing_snap st2 = None /\
       last_synced_snap st2 = Some (snap_id, snap_name)).
Proof.
  intros H.
  pose (set_op := op_set_current_syncing_snap cur_id cur_name).
  assert (Hcomp : forall op,
            (stat_op_update op (stat_op_update set_op st) = stat_op_update op st) ->
            forall pr1, run_stat_op set_op pr dir_path = ok pr1 ->
            run_stat_op op pr1 dir_path = run_stat_op op pr dir_path).
  { intros op Heq pr1 H1.
    destruct (run_stat_op_twice set_op op pr dir_path st H) as (pr1' & Ha & Hb).
    rewrite Ha in H1. unfold ok in H1. injection H1 as <-.
    rewrite Hb, Heq. symmetry. apply run_stat_op_Some. exact H. }
  destruct (run_stat_op_entry set_op pr dir_path st H) as (pr1 & Hrun & Hl & _).
  exists pr1, (stat_op_update set_op st).
  split; [exact Hrun|]. split; [exact Hl|]. split; [reflexivity|].
  split; [apply (Hcomp op_clear_current_syncing_snap eq_refl pr1 Hrun)|].
  split; [apply (Hcomp (op_set_last_synced_snap snap_id snap_name) eq_refl
                   pr1 Hrun)|].
  split; [apply (Hcomp (op_set_last_synced_stat now snap_id snap_name duration)
                   eq_refl pr1 Hrun)|].
  intros pr2 st2 H2 Hl2.
  rewrite (set_last_synced_stat_Some _ _ _ _ _ _ _ Hl) in H2.
  unfold ok in H2. injection H2 as <-.
  rewrite with_stats_lookup in Hl2. injection Hl2 as <-.
  split; reflexivity.
Qed.

Lemma current_syncing_marker_is_transient_witness :
  m_snap_sync_stats sample_replayer !! "/data" = Some SnapSyncStat_init /\
  exists pr1,
    set_current_syncing_snap sample_replayer "/data" 2%N "s2" = ok pr1 /\
    clear_current_syncing_snap pr1 "/data" =
      clear_current_syncing_snap sample_replayer "/data" /\
    set_last_synced_stat 30%N pr1 "/data" 2%N "s2" PrimFloat.two =
      set_last_synced_stat 30%N sample_replayer "/data" 2%N "s2" PrimFloat.two.
Proof.
  split; [reflexivity|].
  destruct (current_syncing_marker_is_transient sample_replayer "/data"
              SnapSyncStat_init 2%N "s2" 30%N 2%N "s2" PrimFloat.two eq_refl)
    as (pr1 & st1 & H1 & _ & _ & Hc & _ & Hs & _).
  exists pr1. split; [exact H1|]. split; [exact Hc|exact Hs].
Defined.

Lemma stat_op_update_overwrites op st :
  overwrites op = true ->
  stat_op_update op (stat_op_update op st) = stat_op_update op st.
Proof. destruct op; simpl; intros H; try discriminate H; reflexivity. Qed.

(** X13: [_reset_failed_count], [set_last_synced_snap],
    [set_current_syncing_snap] and [clear_current_syncing_snap] are
    idempotent: calling one of them a second time with the same
    arguments changes nothing. *)
Theorem overwriting_mutators_idempotent (op : StatOp) (pr : PeerReplayer)
    (dir_path : string) (st : SnapSyncStat) :
  overwrites op = true ->
  m_snap_sync_stats pr !! dir_path = Some st ->
  exists pr1,
    run_stat_op op pr dir_path = ok pr1 /\
    run_stat_op op pr1 dir_path = ok pr1.
Proof.
  intros Hov H.
  destruct (run_stat_op_twice op op pr dir_path st H) as (pr1 & Ha & Hb).
  exists pr1. split; [exact Ha|].
  rewrite Hb, (stat_op_update_overwrites op st Hov).
  rewrite <- (run_stat_op_Some op pr dir_path st H). exact Ha.
Qed.

Lemma overwriting_mutators_idempotent_witness :
  overwrites op_reset_failed_count = true /\
  m_snap_sync_stats quarantined_replayer !! "/data" = Some quarantined_stat /\
  exists pr1,
    _reset_failed_count quarantined_replayer "/data" = ok pr1 /\
    _reset_failed_count pr1 "/data" = ok pr1.
Proof.
  split; [reflexivity|]. split; [reflexivity|].
  apply (overwriting_mutators_idempotent op_reset_failed_count
           quarantined_replayer "/data" quarantined_stat); reflexivity.
Defined.
